(** * check_3pp_licenses.js: third-party licence check against a baseline

    A shallow embedding of [scripts/check_3pp_licenses.js] and the
    properties of its summary parser, classifier, baseline loader and
    reconciliation step.

    Conventions.
    - A JavaScript string is a [string]: a finite sequence of character
      codes.  [undefined] is [None] in an [option].
    - [console.*] calls are recorded, in order, in a log of [output]
      events; [process.exit] and a thrown exception end the computation
      (monad [M] below).
    - Everything the script asks of its environment (the file system, the
      two child processes, the host locale) is an explicit input: the
      record [world] and the class [HostLocale]. *)

From Stdlib Require Import List String Ascii ZArith Bool Lia.
From Stdlib Require Import Sorted Permutation SpecFloat DecimalString.
From Stdlib Require Import OrderedTypeEx.
Import ListNotations.

Local Open Scope string_scope.
Local Open Scope Z_scope.

Set Implicit Arguments.

(* ------------------------------------------------------------------ *)
(** ** Strings *)

Module Str.

(** The character with code 34 (the double quote), 92 (the backslash)
    and 27 (ESC, written [\x1b] in the source). *)
Definition dquote : string := String (ascii_of_nat 34) "".
Definition backslash : string := String (ascii_of_nat 92) "".
Definition esc : string := String (ascii_of_nat 27) "".

(** [parts.join(sep)]. *)
Fixpoint join (sep : string) (parts : list string) : string :=
  match parts with
  | [] => ""
  | [p] => p
  | p :: rest => p ++ sep ++ join sep rest
  end.

Fixpoint rev_append (acc s : string) : string :=
  match acc with
  | "" => s
  | String c acc' => rev_append acc' (String c s)
  end.

(** [s.split(sep)] for a non-empty separator [sep]: the text is cut at
    every occurrence of [sep], scanning from the left; an occurrence is
    consumed whole before the scan resumes.  [cur] holds the characters
    of the piece being read, last one first; [skip] counts the
    characters of a matched separator still to be passed over. *)
Fixpoint split_from (sep : string) (skip : nat) (cur : string) (s : string)
  : list string :=
  match s with
  | "" => [rev_append cur ""]
  | String c s' =>
      match skip with
      | S k => split_from sep k cur s'
      | O =>
          if prefix sep s
          then rev_append cur "" :: split_from sep (Nat.pred (String.length sep)) "" s'
          else split_from sep O (String c cur) s'
      end
  end.

Definition split (sep : string) (s : string) : list string :=
  split_from sep O "" s.

(** [sub] occurs somewhere in [s]. *)
Fixpoint contains (sub s : string) : bool :=
  prefix sub s ||
  match s with
  | "" => false
  | String _ s' => contains sub s'
  end.

(** Lower-casing of the 26 letters A-Z; every other character code is
    left alone. *)
Definition lower_ascii (c : ascii) : ascii :=
  let n := nat_of_ascii c in
  if (65 <=? n)%nat && (n <=? 90)%nat then ascii_of_nat (n + 32) else c.

Fixpoint lower (s : string) : string :=
  match s with
  | "" => ""
  | String c s' => String (lower_ascii c) (lower s')
  end.

(** A character of the ASCII range other than the capital letter I. *)
Definition plain_char (c : ascii) : bool :=
  let n := nat_of_ascii c in
  (n <? 128)%nat && negb (n =? 73)%nat.

Fixpoint plain (s : string) : bool :=
  match s with
  | "" => true
  | String c s' => plain_char c && plain s'
  end.

(** Comparison of two strings by character code, as a number. *)
Definition ordinal (a b : string) : Z :=
  match String.compare a b with
  | Lt => -1
  | Eq => 0
  | Gt => 1
  end.

(** [`${n}`] for an integer [n]. *)
Definition of_Z (n : Z) : string := NilZero.string_of_int (Z.to_int n).

Definition newline : string := String (ascii_of_nat 10) "".

Definition hex_digit (n : nat) : ascii :=
  if (n <? 10)%nat then ascii_of_nat (48 + n) else ascii_of_nat (87 + n).

(** One character inside a JSON string literal, as [JSON.stringify]
    writes it. *)
Definition json_escape_char (c : ascii) : string :=
  let n := nat_of_ascii c in
  if (n =? 34)%nat then backslash ++ dquote
  else if (n =? 92)%nat then backslash ++ backslash
  else if (n =? 8)%nat then backslash ++ "b"
  else if (n =? 9)%nat then backslash ++ "t"
  else if (n =? 10)%nat then backslash ++ "n"
  else if (n =? 12)%nat then backslash ++ "f"
  else if (n =? 13)%nat then backslash ++ "r"
  else if (n <? 32)%nat
       then backslash ++ "u00"
            ++ String (hex_digit (n / 16)) (String (hex_digit (n mod 16)) "")
  else String c "".

Fixpoint json_escape (s : string) : string :=
  match s with
  | "" => ""
  | String c s' => json_escape_char c ++ json_escape s'
  end.

(** [JSON.stringify(s)] for a string [s]. *)
Definition json_quote (s : string) : string :=
  dquote ++ json_escape s ++ dquote.

End Str.

(* ------------------------------------------------------------------ *)
(** ** Data model *)

(** A value produced by [JSON.parse].  The entries of an object are listed
    in the order [Object.entries] enumerates them. *)
#[warnings="-register-all"] Inductive json : Type :=
| JNull
| JBool (b : bool)
| JNum (n : spec_float)
| JStr (s : string)
| JArr (elements : list json)
| JObj (props : list (string * json)).

(** The root of the parsed baseline file.  The baseline is a
    [Map<string, any>]: an array root lists dependency coordinates, which
    are strings. *)
Inductive baseline_json : Type :=
| RootArray (elements : list string)
| RootObject (props : list (string * json))
| RootNull
| RootBool (b : bool)
| RootNumber (n : spec_float)
| RootString (s : string).

(** The typedef [DashSummaryEntry].  A field the destructuring of a short
    line leaves [undefined] is [None]. *)
Record DashSummaryEntry : Type := {
  dependency : option string;
  license : option string;
  status : option string;
  source : option string
}.

(** A thrown value: an [Error] with its name and message. *)
Record js_error : Type := {
  error_name : string;
  error_message : string
}.

(** The [stdio] option of [cp.spawnSync]: one mode for the three streams,
    or one mode each. *)
Inductive stdio_option : Type :=
| StdioAll (mode : string)
| StdioEach (modes : list string).

Record SpawnSyncOptions : Type := {
  stdio : option stdio_option
}.

Module Status.

(** The value [cp.spawnSync] returns, with the three fields [spawn] adds.
    [error] is set when the process could not be started; [signal] is a
    string when a signal ended it, else [null]; [status] is the exit code,
    or [null]. *)
Record SpawnSyncReturns : Type := {
  error : option js_error;
  signal : option string;
  status : option Z;
  bin : string;
  args : list string;
  opts : SpawnSyncOptions
}.

End Status.

(** What [cp.spawnSync] itself reports, before [spawn] adds its fields. *)
Record child_result : Type := {
  child_error : option js_error;
  child_signal : option string;
  child_status : option Z
}.

(** One line written to the console. *)
Inductive output : Type :=
| console_log (text : string)
| console_warn (text : string)
| console_warn_data (text : string) (data : json)
| console_error (text : string)
| console_error_value (e : js_error).

(** An asynchronous iterator: the items it yields, in order, and the error
    it ends with when it does not complete. *)
Record stream (A : Type) : Type := {
  items : list A;
  failure : option js_error
}.

(** [`${x}`] and [x.toString()] for a string or [undefined]. *)
Definition to_string (x : option string) : string :=
  match x with
  | Some s => s
  | None => "undefined"
  end.

(** [Boolean(x)] for a JSON value or [undefined]. *)
Definition truthy (x : option json) : bool :=
  match x with
  | None => false
  | Some JNull => false
  | Some (JBool b) => b
  | Some (JNum n) =>
      match n with
      | S754_zero _ => false
      | S754_nan => false
      | _ => true
      end
  | Some (JStr s) => negb (s =? "")%string
  | Some (JArr _) => true
  | Some (JObj _) => true
  end.

(* ------------------------------------------------------------------ *)
(** ** [Map] and [Set]

    Both keep their keys in insertion order, each key once. *)

Module JsMap.

Definition t : Type := list (string * json).

(** [m.set(k, v)]: a present key keeps its place and takes the new
    value; a new key goes last. *)
Fixpoint set (m : t) (k : string) (v : json) : t :=
  match m with
  | [] => [(k, v)]
  | (k', v') :: m' =>
      if (k' =? k)%string then (k, v) :: m' else (k', v') :: set m' k v
  end.

(** [new Map(entries)]. *)
Definition new (entries : list (string * json)) : t :=
  fold_left (fun m kv => set m (fst kv) (snd kv)) entries [].

(** [m.has(key)]; a key that is [undefined] is never present. *)
Definition has (m : t) (key : option string) : bool :=
  match key with
  | Some k => existsb (fun kv => (fst kv =? k)%string) m
  | None => false
  end.

(** [m.get(k)]. *)
Fixpoint get (m : t) (k : string) : option json :=
  match m with
  | [] => None
  | (k', v) :: m' => if (k' =? k)%string then Some v else get m' k
  end.

(** [m.keys()]. *)
Definition keys (m : t) : list string := map fst m.

(** The invariant of a [Map]: no key twice. *)
Definition ok (m : t) : Prop := NoDup (keys m).

End JsMap.

Module JsSet.

Definition t : Type := list string.

Definition mem (s : t) (k : string) : bool :=
  existsb (fun x => (x =? k)%string) s.

(** [s.add(k)]. *)
Definition add (s : t) (k : string) : t :=
  if mem s k then s else (s ++ [k])%list.

(** [new Set(iterable)]. *)
Definition new (ks : list string) : t := fold_left add ks [].

(** [s.delete(key)]; deleting [undefined] changes nothing. *)
Definition delete (s : t) (key : option string) : t :=
  match key with
  | Some k => filter (fun x => negb (x =? k)%string) s
  | None => s
  end.

(** [s.size]. *)
Definition size (s : t) : nat := List.length s.

End JsSet.

(* ------------------------------------------------------------------ *)
(** ** Effects

    A computation writes console lines and then completes normally with a
    value, ends the process with an exit code, or throws. *)

Inductive completion (A : Type) : Type :=
| Normal (a : A)
| Exit (code : Z)
| Throw (e : js_error).

Arguments Normal {A} a.
Arguments Exit {A} code.
Arguments Throw {A} e.

Definition M (A : Type) : Type := (list output * completion A)%type.

Definition ret {A : Type} (a : A) : M A := ([], Normal a).

Definition bind {A B : Type} (m : M A) (k : A -> M B) : M B :=
  match m with
  | (out, Normal a) => let (out', c) := k a in ((out ++ out')%list, c)
  | (out, Exit code) => (out, Exit code)
  | (out, Throw e) => (out, Throw e)
  end.

Declare Scope js_scope.
Delimit Scope js_scope with js.
Notation "x <- m ;; k" := (bind m (fun x => k))
  (at level 61, m at next level, right associativity) : js_scope.
Notation "m ;; k" := (bind m (fun _ => k))
  (at level 61, right associativity) : js_scope.
Local Open Scope js_scope.

Definition emit (o : output) : M unit := ([o], Normal tt).

(** [process.exit(code)]. *)
Definition process_exit {A : Type} (code : Z) : M A := ([], Exit code).

(** [throw e]. *)
Definition throw {A : Type} (e : js_error) : M A := ([], Throw e).

(** The console lines of a computation, and the code the process ends
    with when the computation is the whole program. *)
Definition printed {A : Type} (m : M A) : list output := fst m.
Definition outcome {A : Type} (m : M A) : completion A := snd m.

(** [for (const x of xs) body(x)]. *)
Fixpoint for_of {A : Type} (xs : list A) (body : A -> M unit) : M unit :=
  match xs with
  | [] => ret tt
  | x :: rest => body x ;; for_of rest body
  end.

(** [for await (const x of s) acc = body(x, acc)]: the items in order, one
    at a time, then the error of the iterator if it has one. *)
Fixpoint for_await_items {A S : Type} (xs : list A) (body : A -> S -> M S)
  (acc : S) : M S :=
  match xs with
  | [] => ret acc
  | x :: rest => acc' <- body x acc ;; for_await_items rest body acc'
  end.

Definition for_await {A S : Type} (s : stream A) (body : A -> S -> M S)
  (acc : S) : M S :=
  acc' <- for_await_items (items s) body acc ;;
  match failure s with
  | Some e => throw e
  | None => ret acc'
  end.

(** [xs.sort(compare)] with a comparator that may throw.  The sort is
    stable; with a comparator that never throws and orders its arguments
    consistently the result does not depend on the sorting algorithm.  (The
    comparator of the script throws only on an entry without a dependency,
    and the parser never yields one.) *)
Fixpoint sort_insert {A : Type} (compare : A -> A -> M Z) (x : A)
  (sorted : list A) : M (list A) :=
  match sorted with
  | [] => ret [x]
  | y :: rest =>
      c <- compare x y ;;
      if c <=? 0 then ret (x :: y :: rest)
      else (rest' <- sort_insert compare x rest ;; ret (y :: rest'))
  end.

Fixpoint Array_sort {A : Type} (compare : A -> A -> M Z) (xs : list A)
  : M (list A) :=
  match xs with
  | [] => ret []
  | x :: rest => sorted <- Array_sort compare rest ;; sort_insert compare x sorted
  end.

(** [xs.filter(callback)] with a callback that reads and updates the
    variables it closes over ([S]); the callback runs once per element, in
    order, and the kept elements form a new array. *)
Fixpoint Array_filter {A S : Type} (callback : A -> S -> bool * S)
  (xs : list A) (s : S) : list A * S :=
  match xs with
  | [] => ([], s)
  | x :: rest =>
      let (keep, s') := callback x s in
      let (kept, s'') := Array_filter callback rest s' in
      (if keep then x :: kept else kept, s'')
  end.

(* ------------------------------------------------------------------ *)
(** ** The environment *)

(** The two locale-sensitive string methods of the host, which the script
    calls without a locale argument: [s.toLocaleLowerCase()] and
    [a.localeCompare(b)] (negative, zero or positive). *)
Class HostLocale : Type := {
  toLocaleLowerCase : string -> string;
  localeCompare : string -> string -> Z
}.

(** Lower-casing maps a string of ASCII characters without a capital I to
    its ASCII lower case in every locale (the locale-specific rules
    concern I and characters outside ASCII). *)
Definition lowers_ascii (L : HostLocale) : Prop :=
  forall s, Str.plain s = true -> toLocaleLowerCase s = Str.lower s.

(** [localeCompare] is a consistent comparator: any two strings are
    ordered one way or the other, transitively. *)
Definition consistent_comparator (L : HostLocale) : Prop :=
  (forall a b, localeCompare a b <= 0 \/ localeCompare b a <= 0) /\
  (forall a b c,
      localeCompare a b <= 0 -> localeCompare b c <= 0 -> localeCompare a c <= 0).

(** The module-level constants. *)
Record globals : Type := {
  NO_COLOR : bool;
  dashLicensesJar : string;
  dashLicensesSummary : string;
  dashLicensesBaseline : string
}.

Definition dashLicensesUrl : string :=
  "https://repo.eclipse.org/service/local/artifact/maven/redirect?r=dash-licenses&g=org.eclipse.dash&a=org.eclipse.dash.licenses&v=LATEST".

(** What the file system and the child processes answer during one run, in
    the order [main] asks. *)
Record world : Type := {
  (** [fs.existsSync(dashLicensesJar)] *)
  jar_exists : bool;
  (** the error [fs.mkdirSync] throws, if it does *)
  mkdir_error : option js_error;
  (** [cp.spawnSync('curl', ...)] *)
  curl : child_result;
  (** [fs.existsSync(dashLicensesSummary)], before the scanner runs *)
  summary_exists : bool;
  (** the error [fs.renameSync] throws, if it does *)
  rename_error : option js_error;
  (** [cp.spawnSync('java', ...)] *)
  java : child_result;
  (** the lines [readline] delivers from the summary file after the
      scanner ran, and the error of the read stream if reading fails *)
  summary_file : stream string;
  (** [fs.existsSync(dashLicensesBaseline)] *)
  baseline_exists : bool;
  (** [JSON.parse(fs.readFileSync(dashLicensesBaseline, 'utf8'))]: the
      error thrown, or the value *)
  baseline_file : js_error + baseline_json
}.

(** The [TypeError] of a property access on [undefined]. *)
Definition TypeError_undefined (property : string) : js_error :=
  {| error_name := "TypeError";
     error_message :=
       "Cannot read properties of undefined (reading '" ++ property ++ "')" |}.

(** The variables the callback of [restricted.filter] closes over. *)
Record closure : Type := {
  restricted_array : list DashSummaryEntry;
  baseline_map : JsMap.t;
  unmatched_set : JsSet.t
}.

(* ------------------------------------------------------------------ *)
(** ** The script *)

Section Script.

Context {locale : HostLocale}.
Variable g : globals.

Definition style (code : Z) (text : string) : string :=
  if NO_COLOR g then text
  else Str.esc ++ "[" ++ Str.of_Z code ++ "m" ++ text ++ Str.esc ++ "[0m".
Definition cyan (text : string) : string := style 96 text.
Definition magenta (text : string) : string := style 95 text.
Definition yellow (text : string) : string := style 93 text.
Definition red (text : string) : string := style 91 text.

Definition info (text : string) : M unit :=
  emit (console_warn (cyan ("INFO: " ++ text))).
Definition warn (text : string) : M unit :=
  emit (console_warn (yellow ("WARN: " ++ text))).
Definition error (text : string) : M unit :=
  emit (console_error (red ("ERROR: " ++ text))).

(** [JSON.stringify([status.bin, ...status.args], undefined, indent)]. *)
Definition prettyCommand (status : Status.SpawnSyncReturns) (indent : nat) : string :=
  let gap := string_of_list_ascii (repeat " "%char (Nat.min indent 10)) in
  let elements := map Str.json_quote (Status.bin status :: Status.args status) in
  if (gap =? "")%string then "[" ++ Str.join "," elements ++ "]"
  else "[" ++ Str.newline ++ gap
       ++ Str.join ("," ++ Str.newline ++ gap) elements
       ++ Str.newline ++ "]".

Definition getErrorFromStatus (status : Status.SpawnSyncReturns) : option string :=
  match Status.signal status with
  | Some sig =>
      Some ("Command " ++ prettyCommand status 2
            ++ " exited with signal: " ++ sig)
  | None =>
      match Status.status status with
      | Some 0 => None
      | Some code =>
          Some ("Command " ++ prettyCommand status 2
                ++ " exited with code: " ++ Str.of_Z code)
      | None =>
          Some ("Command " ++ prettyCommand status 2
                ++ " exited with code: " ++ "null")
      end
  end.

(** [if (message)] for a string or [undefined]. *)
Definition is_error (message : option string) : bool :=
  match message with
  | Some s => negb (s =? "")%string
  | None => false
  end.

(** [spawn(bin, args, opts)]; [child] is what [cp.spawnSync] reports. *)
Definition spawn (bin : string) (args : list string) (opts : SpawnSyncOptions)
  (child : child_result) : M Status.SpawnSyncReturns :=
  let opts :=
    {| stdio := match stdio opts with
                | Some s => Some s
                | None => Some (StdioAll "inherit")
                end |} in
  let status :=
    {| Status.error := child_error child;
       Status.signal := child_signal child;
       Status.status := child_status child;
       Status.bin := bin; Status.args := args; Status.opts := opts |} in
  match Status.error status with
  | Some e => emit (console_error_value e) ;; process_exit 1
  | None => ret status
  end.

Definition logRestrictedDashSummaryEntries (entries : list DashSummaryEntry)
  : M unit :=
  for_of entries (fun e =>
    emit (console_log
            (red ("X " ++ to_string (dependency e) ++ ", "
                  ++ to_string (license e))))).

(** One line of the summary: [line.split(', ')], destructured. *)
Definition parse_line (line : string) : DashSummaryEntry :=
  let fields := Str.split ", " line in
  {| dependency := nth_error fields 0;
     license := nth_error fields 1;
     status := nth_error fields 2;
     source := nth_error fields 3 |}.

Definition readSummaryLines (summary : stream string) : stream DashSummaryEntry :=
  {| items := map parse_line (items summary);
     failure := failure summary |}.

(** The test of the loop body: [entry.status.toLocaleLowerCase() ===
    'restricted']. *)
Definition is_restricted (entry : DashSummaryEntry) : M bool :=
  match status entry with
  | None => throw (TypeError_undefined "toLocaleLowerCase")
  | Some s => ret (toLocaleLowerCase s =? "restricted")%string
  end.

(** [(a, b) => a.dependency.localeCompare(b.dependency)]. *)
Definition compare_dependency (a b : DashSummaryEntry) : M Z :=
  match dependency a with
  | None => throw (TypeError_undefined "localeCompare")
  | Some da => ret (localeCompare da (to_string (dependency b)))
  end.

Definition getRestrictedDependenciesFromSummary (summary : stream string)
  : M (list DashSummaryEntry) :=
  restricted <-
    for_await (readSummaryLines summary)
      (fun entry restricted =>
         r <- is_restricted entry ;;
         if r then ret (restricted ++ [entry])%list else ret restricted)
      [] ;;
  Array_sort compare_dependency restricted.

Definition readBaseline (file : js_error + baseline_json) : M JsMap.t :=
  match file with
  | inl e => throw e
  | inr (RootArray elements) =>
      ret (JsMap.new (map (fun element => (element, JNull)) elements))
  | inr (RootObject props) => ret (JsMap.new props)
  | inr _ =>
      emit (console_error
              ("ERROR: Invalid format for " ++ Str.dquote
               ++ dashLicensesBaseline g ++ Str.dquote)) ;;
      process_exit 1
  end.

(** The callback of [restricted.filter]. *)
Definition unhandled_callback (entry : DashSummaryEntry) (c : closure)
  : bool * closure :=
  let c' :=
    {| restricted_array := restricted_array c;
       baseline_map := baseline_map c;
       unmatched_set := JsSet.delete (unmatched_set c) (dependency entry) |} in
  (negb (JsMap.has (baseline_map c') (dependency entry)), c').

(** Lines 63-67: the working set and the filter. *)
Definition reconcile (restricted : list DashSummaryEntry) (baseline : JsMap.t)
  : list DashSummaryEntry * closure :=
  let c :=
    {| restricted_array := restricted;
       baseline_map := baseline;
       unmatched_set := JsSet.new (JsMap.keys baseline) |} in
  Array_filter unhandled_callback (restricted_array c) c.

(** Lines 68-77: the report on baseline entries nothing matched. *)
Definition report_unmatched (c : closure) : M unit :=
  if (0 <? JsSet.size (unmatched_set c))%nat then
    warn "Some entries in the baseline did not match anything from dash-licenses output:" ;;
    for_of (unmatched_set c) (fun dependency =>
      emit (console_log (magenta ("> " ++ dependency))) ;;
      let data := JsMap.get (baseline_map c) dependency in
      if truthy data
      then match data with
           | Some d => emit (console_warn_data (dependency ++ ":") d)
           | None => ret tt
           end
      else ret tt)
  else ret tt.

(** Lines 61-82: the branch taken when the baseline file exists. *)
Definition check_baseline (restricted : list DashSummaryEntry)
  (file : js_error + baseline_json) : M unit :=
  info "Checking results against the baseline..." ;;
  baseline <- readBaseline file ;;
  let (unhandled, c) := reconcile restricted baseline in
  report_unmatched c ;;
  if (0 <? List.length unhandled)%nat then
    error "Found results that aren't part of the baseline!" ;;
    logRestrictedDashSummaryEntries unhandled ;;
    process_exit 1
  else ret tt.

(** Lines 35-45. *)
Definition fetch (w : world) : M unit :=
  if negb (jar_exists w) then
    info "Fetching dash-licenses..." ;;
    match mkdir_error w with Some e => throw e | None => ret tt end ;;
    status <- spawn "curl" ["-L"; dashLicensesUrl; "-o"; dashLicensesJar g]
                {| stdio := None |} (curl w) ;;
    let curlError := getErrorFromStatus status in
    if is_error curlError then
      error (to_string curlError) ;;
      process_exit 1
    else ret tt
  else ret tt.

(** Lines 46-49. *)
Definition backup (w : world) : M unit :=
  if summary_exists w then
    info "Backing up previous summary..." ;;
    match rename_error w with Some e => throw e | None => ret tt end
  else ret tt.

(** Lines 50-57. *)
Definition scan (w : world) : M unit :=
  info "Running dash-licenses..." ;;
  status <- spawn "java"
              ["-jar"; dashLicensesJar g; "yarn.lock"; "-batch"; "50";
               "-timeout"; "240"; "-summary"; dashLicensesSummary g]
              {| stdio := Some (StdioEach ["ignore"; "ignore"; "inherit"]) |}
              (java w) ;;
  let dashError := getErrorFromStatus status in
  if is_error dashError then warn (to_string dashError) else ret tt.

(** Lines 58-90. *)
Definition check (w : world) : M unit :=
  restricted <- getRestrictedDependenciesFromSummary (summary_file w) ;;
  (if (0 <? List.length restricted)%nat then
     if baseline_exists w then check_baseline restricted (baseline_file w)
     else
       error "Found unhandled restricted dependencies!" ;;
       logRestrictedDashSummaryEntries restricted ;;
       process_exit 1
   else ret tt) ;;
  info "Done." ;;
  process_exit 0.

Definition main (w : world) : M unit :=
  fetch w ;; backup w ;; scan w ;; check w.

(** [main().catch(error => { console.error(error); process.exit(1); })]:
    the console lines of the run and the exit code of the process. *)
Definition settle (m : M unit) : list output * Z :=
  match m with
  | (out, Normal _) => (out, 0)
  | (out, Exit code) => (out, code)
  | (out, Throw e) => ((out ++ [console_error_value e])%list, 1)
  end.

Definition program (w : world) : list output * Z := settle (main w).

Definition exit_code (w : world) : Z := snd (program w).

End Script.

(* ------------------------------------------------------------------ *)
(** ** Lines 63-67 on a heap

    The same step with the objects it touches held in a store, so that
    sharing and mutation can be told apart: the array [restricted], the
    [Map] [baseline], the [Set] [unmatched] and the array [unhandled] are
    objects at locations of a heap, and [delete] and the writes of
    [filter] update the heap in place. *)

Inductive jsobject : Type :=
| ObjArray (elements : list DashSummaryEntry)
| ObjMap (entries : JsMap.t)
| ObjSet (members : JsSet.t).

(** A heap: the object at location [l] is the [l]-th of the list. *)
Definition heap : Type := list jsobject.

Definition heap_read (h : heap) (l : nat) : option jsobject := nth_error h l.

(** In-place update of the object at [l]. *)
Fixpoint heap_write (h : heap) (l : nat) (o : jsobject) : heap :=
  match h, l with
  | [], _ => []
  | _ :: h', O => o :: h'
  | x :: h', S l' => x :: heap_write h' l' o
  end.

(** Allocation of a new object: its location and the extended heap. *)
Definition heap_new (h : heap) (o : jsobject) : nat * heap :=
  (List.length h, (h ++ [o])%list).

(** The callback of [restricted.filter], with [baseline] and [unmatched]
    the locations of the two objects it closes over.  [None] stands for
    the [TypeError] of a method call on an object of another kind. *)
Definition callback_heap (baseline unmatched : nat) (entry : DashSummaryEntry)
  (h : heap) : option (bool * heap) :=
  match heap_read h unmatched with
  | Some (ObjSet s) =>
      let h' := heap_write h unmatched
                  (ObjSet (JsSet.delete s (dependency entry))) in
      match heap_read h' baseline with
      | Some (ObjMap m) => Some (negb (JsMap.has m (dependency entry)), h')
      | _ => None
      end
  | _ => None
  end.

(** The loop of [Array.prototype.filter]: for the [n] indices from [k] on,
    the element is read from the array as it is at that moment, the
    callback runs, and a kept element is appended to the result array. *)
Fixpoint filter_heap (callback : DashSummaryEntry -> heap -> option (bool * heap))
  (array result : nat) (k n : nat) (h : heap) : option heap :=
  match n with
  | O => Some h
  | S n' =>
      match heap_read h array with
      | Some (ObjArray elements) =>
          match nth_error elements k with
          | Some x =>
              match callback x h with
              | Some (keep, h') =>
                  if keep then
                    match heap_read h' result with
                    | Some (ObjArray kept) =>
                        filter_heap callback array result (S k) n'
                          (heap_write h' result (ObjArray (kept ++ [x])%list))
                    | _ => None
                    end
                  else filter_heap callback array result (S k) n' h'
              | None => None
              end
          | None => filter_heap callback array result (S k) n' h
          end
      | _ => None
      end
  end.

(** [array.filter(callback)]: the length is read once, the result array
    is a new object. *)
Definition Array_filter_heap
  (callback : DashSummaryEntry -> heap -> option (bool * heap))
  (array : nat) (h : heap) : option (nat * heap) :=
  match heap_read h array with
  | Some (ObjArray elements) =>
      let (result, h1) := heap_new h (ObjArray []) in
      match filter_heap callback array result 0 (List.length elements) h1 with
      | Some h2 => Some (result, h2)
      | None => None
      end
  | _ => None
  end.

(** Lines 63-67: the locations of [unhandled] and [unmatched], and the heap
    after the step. *)
Definition reconcile_heap (restricted baseline : nat) (h : heap)
  : option (nat * nat * heap) :=
  match heap_read h baseline with
  | Some (ObjMap m) =>
      let (unmatched, h1) := heap_new h (ObjSet (JsSet.new (JsMap.keys m))) in
      match Array_filter_heap (callback_heap baseline unmatched) restricted h1 with
      | Some (unhandled, h2) => Some (unhandled, unmatched, h2)
      | None => None
      end
  | _ => None
  end.

(* ------------------------------------------------------------------ *)
(** ** Vocabulary of the properties *)

(** The run gets as far as reading the summary: neither the download nor
    the backup nor the start of the scanner ended it. *)
Definition reaches_check {locale : HostLocale} (g : globals) (w : world) : Prop :=
  outcome (fetch g w ;; backup g w ;; scan g w) = Normal tt.

(** A child process that started and then ended on a signal or with an
    exit code other than 0. *)
Definition failed (child : child_result) : Prop :=
  child_signal child <> None \/ child_status child <> Some 0.

(** The world [w] with another answer about the baseline file. *)
Definition with_baseline (w : world) (present : bool)
  (file : js_error + baseline_json) : world :=
  {| jar_exists := jar_exists w;
     mkdir_error := mkdir_error w;
     curl := curl w;
     summary_exists := summary_exists w;
     rename_error := rename_error w;
     java := java w;
     summary_file := summary_file w;
     baseline_exists := present;
     baseline_file := file |}.

(** The line printed for one finding: [X {dependency}, {license}]. *)
Definition finding_line (g : globals) (e : DashSummaryEntry) : output :=
  console_log (red g ("X " ++ to_string (dependency e) ++ ", "
                       ++ to_string (license e))).

(** The lines printed about baseline entries that matched nothing. *)
Definition unmatched_lines (g : globals) (baseline : JsMap.t) (k : string)
  : list output :=
  console_log (magenta g ("> " ++ k))
  :: match JsMap.get baseline k with
     | Some d => if truthy (Some d) then [console_warn_data (k ++ ":") d] else []
     | None => []
     end.

(** The stable insertion sort that [Array_sort] performs when the
    comparator [cmp] never throws. *)
Fixpoint insert_by {A : Type} (cmp : A -> A -> Z) (x : A) (sorted : list A)
  : list A :=
  match sorted with
  | [] => [x]
  | y :: rest =>
      if cmp x y <=? 0 then x :: y :: rest else y :: insert_by cmp x rest
  end.

Fixpoint sort_by {A : Type} (cmp : A -> A -> Z) (xs : list A) : list A :=
  match xs with
  | [] => []
  | x :: rest => insert_by cmp x (sort_by cmp rest)
  end.

(** The number the comparator of the classifier returns. *)
Definition dependency_order {locale : HostLocale} (a b : DashSummaryEntry) : Z :=
  localeCompare (to_string (dependency a)) (to_string (dependency b)).

(** The first character of [s], as a string. *)
Definition first_char (s : string) : string :=
  match s with
  | "" => ""
  | String c _ => String c ""
  end.

(** The number of fields of a line. *)
Definition field_count (line : string) : nat :=
  List.length (Str.split ", " line).

(** The order of two entries by dependency. *)
Definition dependency_le {locale : HostLocale} (a b : DashSummaryEntry) : Prop :=
  localeCompare (to_string (dependency a)) (to_string (dependency b)) <= 0.

(** A row whose status, lower-cased, is the word restricted. *)
Definition restricted_row {locale : HostLocale} (e : DashSummaryEntry) : bool :=
  match status e with
  | Some s => (toLocaleLowerCase s =? "restricted")%string
  | None => false
  end.

(** Some entry of [restricted] has the dependency [k]. *)
Definition mentions (restricted : list DashSummaryEntry) (k : string) : bool :=
  existsb (fun e => match dependency e with
                    | Some d => (d =? k)%string
                    | None => false
                    end) restricted.

(** The download (when the tool is missing), the backup and the start of
    the scanner all succeed. *)
Definition prelude_passes (w : world) : Prop :=
  (jar_exists w = true \/
   (mkdir_error w = None /\ child_error (curl w) = None /\
    child_signal (curl w) = None /\ child_status (curl w) = Some 0)) /\
  (summary_exists w = false \/ rename_error w = None) /\
  child_error (java w) = None.

(** The rows of the summary that are restricted, in file order. *)
Definition restricted_rows {locale : HostLocale} (w : world)
  : list DashSummaryEntry :=
  filter restricted_row (map parse_line (items (summary_file w))).

(** The world [w] with the lines of the summary replaced. *)
Definition with_summary_lines (w : world) (lines : list string) : world :=
  {| jar_exists := jar_exists w;
     mkdir_error := mkdir_error w;
     curl := curl w;
     summary_exists := summary_exists w;
     rename_error := rename_error w;
     java := java w;
     summary_file := {| items := lines; failure := failure (summary_file w) |};
     baseline_exists := baseline_exists w;
     baseline_file := baseline_file w |}.

(** A line that carries a value next to its text. *)
Definition is_data (o : output) : bool :=
  match o with
  | console_warn_data _ _ => true
  | _ => false
  end.

(** The condition under which the stage of lines 58-90 ends with code 0. *)
Definition check_passes {locale : HostLocale} (g : globals) (w : world) : Prop :=
  failure (summary_file w) = None /\
  Forall (fun line => (3 <= field_count line)%nat) (items (summary_file w)) /\
  (restricted_rows w = [] \/
   (baseline_exists w = true /\
    exists baseline,
      readBaseline g (baseline_file w) = ret baseline /\
      forall e, In e (restricted_rows w) ->
                JsMap.has baseline (dependency e) = true)).

(** A line that reports a failure: an error line, a printed error value,
    or the finding line of a restricted row of the summary. *)
Definition failure_line {locale : HostLocale} (g : globals) (w : world)
  (o : output) : Prop :=
  (exists text, o = console_error text) \/
  (exists e, o = console_error_value e) \/
  (exists entry, In entry (restricted_rows w) /\ o = finding_line g entry).

(** The list ends with a line that reports a failure. *)
Definition ends_loud {locale : HostLocale} (g : globals) (w : world)
  (out : list output) : Prop :=
  exists before o, out = (before ++ [o])%list /\ failure_line g w o.

(** How a run can end: code 0 after the line [INFO: Done.], or code 1
    after an error line, an error value or a finding. *)
Definition closes {locale : HostLocale} (g : globals) (w : world)
  (r : list output * Z) : Prop :=
  (snd r = 0 /\
   exists before, fst r = (before ++ [console_warn (cyan g "INFO: Done.")])%list) \/
  (snd r = 1 /\ ends_loud g w (fst r)).

(** The line [o] shows the value stored in the baseline for a key that is
    the dependency of no restricted row. *)
Definition annotation_of {locale : HostLocale} (g : globals) (w : world)
  (o : output) : Prop :=
  exists baseline k d,
    o = console_warn_data (k ++ ":") d /\
    baseline_exists w = true /\
    readBaseline g (baseline_file w) = ret baseline /\
    JsMap.get baseline k = Some d /\
    truthy (Some d) = true /\
    forall e, In e (restricted_rows w) -> dependency e <> Some k.

(** Every line the computation prints satisfies [P]. *)
Definition lines (P : output -> Prop) {A : Type} (m : M A) : Prop :=
  Forall P (printed m).

(* ------------------------------------------------------------------ *)
(** ** Sample inputs *)

(** A host whose locale lower-cases the letters A-Z only and compares
    strings by character code. *)
Definition ascii_locale : HostLocale :=
  {| toLocaleLowerCase := Str.lower; localeCompare := Str.ordinal |}.

Definition sample_globals : globals :=
  {| NO_COLOR := true;
     dashLicensesJar := "/repo/scripts/download/dash-licenses.jar";
     dashLicensesSummary := "/repo/license-check-summary.txt";
     dashLicensesBaseline := "/repo/license-check-baseline.json" |}.

Definition child_ok : child_result :=
  {| child_error := None; child_signal := None; child_status := Some 0 |}.

Definition child_exit_1 : child_result :=
  {| child_error := None; child_signal := None; child_status := Some 1 |}.

Definition ENOENT : js_error :=
  {| error_name := "Error"; error_message := "spawnSync java ENOENT" |}.

Definition child_not_started : child_result :=
  {| child_error := Some ENOENT; child_signal := None; child_status := None |}.

(** A run with the tool already downloaded, a scanner that ends with
    [java_result], the given summary lines and the given baseline. *)
Definition sample_world (java_result : child_result) (lines : list string)
  (present : bool) (file : js_error + baseline_json) : world :=
  {| jar_exists := true;
     mkdir_error := None;
     curl := child_ok;
     summary_exists := false;
     rename_error := None;
     java := java_result;
     summary_file := {| items := lines; failure := None |};
     baseline_exists := present;
     baseline_file := file |}.

(** A run that has to download the tool first. *)
Definition sample_download (curl_result : child_result) : world :=
  {| jar_exists := false;
     mkdir_error := None;
     curl := curl_result;
     summary_exists := false;
     rename_error := None;
     java := child_ok;
     summary_file := {| items := []; failure := None |};
     baseline_exists := false;
     baseline_file := inr (RootArray []) |}.

Definition sample_lines : list string :=
  ["B, lic, Restricted, src"; "A, lic, restricted, src"; "C, lic, approved, src"].

Definition entry_A : DashSummaryEntry :=
  {| dependency := Some "A"; license := Some "lic";
     status := Some "restricted"; source := Some "src" |}.

Definition entry_B : DashSummaryEntry :=
  {| dependency := Some "B"; license := Some "lic";
     status := Some "Restricted"; source := Some "src" |}.

(* ================================================================== *)
(** * Properties *)

Unset Implicit Arguments.

(** ** The embedding on small inputs *)

Example split_four :
  Str.split ", " "a, b, c, d" = ["a"; "b"; "c"; "d"].
Proof. reflexivity. Qed.

Example split_empty_line : Str.split ", " "" = [""].
Proof. reflexivity. Qed.

Example split_adjacent_separators :
  Str.split ", " "a,, , b, " = ["a,"; ""; "b"; ""].
Proof. reflexivity. Qed.

Example parse_five_fields :
  parse_line "pkg, MIT, approved, src, extra"
  = {| dependency := Some "pkg"; license := Some "MIT";
       status := Some "approved"; source := Some "src" |}.
Proof. reflexivity. Qed.

Example error_message_signal :
  getErrorFromStatus
    {| Status.error := None; Status.signal := Some "SIGTERM";
       Status.status := None; Status.bin := "curl"; Status.args := ["-L"];
       Status.opts := {| stdio := Some (StdioAll "inherit") |} |}
  = Some ("Command [" ++ Str.newline
          ++ "  " ++ Str.dquote ++ "curl" ++ Str.dquote ++ "," ++ Str.newline
          ++ "  " ++ Str.dquote ++ "-L" ++ Str.dquote ++ Str.newline
          ++ "] exited with signal: SIGTERM").
Proof. reflexivity. Qed.

(** A baseline that covers both restricted dependencies: nothing is left
    unhandled or unmatched and the run succeeds. *)
Example covered_by_baseline :
  program (locale := ascii_locale) sample_globals
    (sample_world child_ok sample_lines true
       (inr (RootObject [("A", JNull); ("B", JNull)])))
  = ([console_warn "INFO: Running dash-licenses...";
      console_warn "INFO: Checking results against the baseline...";
      console_warn "INFO: Done."], 0).
Proof. reflexivity. Qed.

(** The same run in colour. *)
Example covered_by_baseline_colour :
  fst (program (locale := ascii_locale)
         {| NO_COLOR := false; dashLicensesJar := "jar";
            dashLicensesSummary := "summary"; dashLicensesBaseline := "baseline" |}
         (sample_world child_ok sample_lines true
            (inr (RootArray ["A"; "B"]))))
  = [console_warn (Str.esc ++ "[96mINFO: Running dash-licenses..." ++ Str.esc ++ "[0m");
     console_warn (Str.esc ++ "[96mINFO: Checking results against the baseline..."
                   ++ Str.esc ++ "[0m");
     console_warn (Str.esc ++ "[96mINFO: Done." ++ Str.esc ++ "[0m")].
Proof. reflexivity. Qed.

(** A baseline file that does not parse ends the run with code 1. *)
Example unparsable_baseline :
  program (locale := ascii_locale) sample_globals
    (sample_world child_ok sample_lines true
       (inl {| error_name := "SyntaxError";
               error_message := "Unexpected end of JSON input" |}))
  = ([console_warn "INFO: Running dash-licenses...";
      console_warn "INFO: Checking results against the baseline...";
      console_error_value
        {| error_name := "SyntaxError";
           error_message := "Unexpected end of JSON input" |}], 1).
Proof. reflexivity. Qed.

(** ** The monad *)

Lemma bind_ret_l {A B : Type} (a : A) (k : A -> M B) : bind (ret a) k = k a.
Proof. unfold bind, ret. destruct (k a) as [out c]. reflexivity. Qed.

Lemma bind_normal {A B : Type} (out : list output) (a : A) (k : A -> M B) :
  bind (out, Normal a) k = ((out ++ printed (k a))%list, outcome (k a)).
Proof. unfold bind, printed, outcome. destruct (k a). reflexivity. Qed.

Lemma bind_exit {A B : Type} (out : list output) (code : Z) (k : A -> M B) :
  bind (out, Exit code) k = (out, Exit code).
Proof. reflexivity. Qed.

Lemma bind_throw {A B : Type} (out : list output) (e : js_error) (k : A -> M B) :
  bind (out, Throw e) k = (out, Throw e).
Proof. reflexivity. Qed.

Lemma bind_emit {B : Type} (o : output) (k : unit -> M B) :
  bind (emit o) k = (o :: printed (k tt), outcome (k tt)).
Proof. unfold emit. rewrite bind_normal. reflexivity. Qed.

Lemma surjective_M {A : Type} (m : M A) : m = (printed m, outcome m).
Proof. destruct m; reflexivity. Qed.

Lemma for_of_emit {A : Type} (f : A -> output) (xs : list A) :
  for_of xs (fun x => emit (f x)) = (map f xs, Normal tt).
Proof.
  induction xs as [|x xs IH]; simpl.
  - reflexivity.
  - rewrite IH. reflexivity.
Qed.

Lemma for_of_lines {A : Type} (body : A -> M unit) (f : A -> list output)
  (xs : list A) :
  (forall x, body x = (f x, Normal tt)) ->
  for_of xs body = (flat_map f xs, Normal tt).
Proof.
  intros Hbody. induction xs as [|x xs IH].
  - reflexivity.
  - change (for_of (x :: xs) body) with (bind (body x) (fun _ => for_of xs body)).
    rewrite Hbody, IH. reflexivity.
Qed.

Lemma logRestricted_lines (g : globals) (entries : list DashSummaryEntry) :
  logRestrictedDashSummaryEntries g entries
  = (map (finding_line g) entries, Normal tt).
Proof.
  unfold logRestrictedDashSummaryEntries.
  apply (for_of_emit (finding_line g)).
Qed.

(** ** [Map] and [Set] *)

Lemma map_has_keys (m : JsMap.t) (k : string) :
  JsMap.has m (Some k) = true <-> In k (JsMap.keys m).
Proof.
  unfold JsMap.has, JsMap.keys. rewrite existsb_exists, in_map_iff.
  split.
  - intros [kv [Hin Heq]]. apply String.eqb_eq in Heq. exists kv. auto.
  - intros [kv [Heq Hin]]. exists kv. split; [assumption|].
    apply String.eqb_eq. assumption.
Qed.

Lemma map_set_keys (m : JsMap.t) (k : string) (v : json) :
  JsMap.keys (JsMap.set m k v)
  = if JsMap.has m (Some k) then JsMap.keys m else (JsMap.keys m ++ [k])%list.
Proof.
  unfold JsMap.keys, JsMap.has.
  induction m as [|[k' v'] m IH]; simpl.
  - reflexivity.
  - destruct (String.eqb_spec k' k) as [->|Hne]; simpl.
    + reflexivity.
    + rewrite IH. destruct (existsb _ m); reflexivity.
Qed.

Lemma map_set_ok (m : JsMap.t) (k : string) (v : json) :
  JsMap.ok m -> JsMap.ok (JsMap.set m k v).
Proof.
  unfold JsMap.ok. intros Hok. rewrite map_set_keys.
  destruct (JsMap.has m (Some k)) eqn:Hhas; [assumption|].
  apply NoDup_app; [assumption | repeat constructor; intros [] | ].
  intros x Hx [<-|[]].
  apply map_has_keys in Hx. congruence.
Qed.

Lemma map_fold_ok (entries : list (string * json)) (acc : JsMap.t) :
  JsMap.ok acc ->
  JsMap.ok (fold_left (fun m kv => JsMap.set m (fst kv) (snd kv)) entries acc).
Proof.
  revert acc. induction entries as [|kv entries IH]; simpl; intros acc Hok.
  - assumption.
  - apply IH. apply map_set_ok. assumption.
Qed.

Lemma map_new_ok (entries : list (string * json)) : JsMap.ok (JsMap.new entries).
Proof. apply map_fold_ok. constructor. Qed.

Lemma map_set_fresh (m : JsMap.t) (k : string) (v : json) :
  ~ In k (JsMap.keys m) -> JsMap.set m k v = (m ++ [(k, v)])%list.
Proof.
  induction m as [|[k' v'] m IH]; simpl; intros Hfresh.
  - reflexivity.
  - destruct (String.eqb_spec k' k) as [->|Hne].
    + exfalso. apply Hfresh. left. reflexivity.
    + rewrite IH; [reflexivity|]. intros Hin. apply Hfresh. right. assumption.
Qed.

Lemma map_fold_nodup (entries : list (string * json)) (acc : JsMap.t) :
  NoDup (JsMap.keys acc ++ map fst entries) ->
  fold_left (fun m kv => JsMap.set m (fst kv) (snd kv)) entries acc
  = (acc ++ entries)%list.
Proof.
  revert acc. induction entries as [|[k v] entries IH]; simpl; intros acc Hnd.
  - rewrite app_nil_r. reflexivity.
  - rewrite map_set_fresh.
    + rewrite IH.
      * rewrite <- app_assoc. reflexivity.
      * unfold JsMap.keys. rewrite map_app. simpl. rewrite <- app_assoc. exact Hnd.
    + apply NoDup_remove_2 in Hnd. intros Hin. apply Hnd.
      apply in_or_app. left. assumption.
Qed.

Lemma map_new_nodup (entries : list (string * json)) :
  NoDup (map fst entries) -> JsMap.new entries = entries.
Proof. intros Hnd. unfold JsMap.new. rewrite map_fold_nodup; auto. Qed.

Lemma map_get_in (m : JsMap.t) (k : string) (v : json) :
  JsMap.get m k = Some v -> In (k, v) m.
Proof.
  induction m as [|[k' v'] m IH]; simpl; [discriminate|].
  destruct (String.eqb_spec k' k) as [->|Hne].
  - intros [= ->]. left. reflexivity.
  - intros H. right. apply IH. assumption.
Qed.

Lemma map_get_none (m : JsMap.t) (k : string) :
  JsMap.get m k = None <-> ~ In k (JsMap.keys m).
Proof.
  induction m as [|[k' v'] m IH]; simpl.
  - tauto.
  - destruct (String.eqb_spec k' k) as [->|Hne].
    + split; [discriminate|]. intros H. exfalso. apply H. left. reflexivity.
    + rewrite IH. split.
      * intros H [Heq|Hin]; [congruence | contradiction].
      * intros H Hin. apply H. right. assumption.
Qed.

Lemma map_fold_keys (entries : list (string * json)) (acc : JsMap.t) (k : string) :
  In k (JsMap.keys (fold_left (fun m kv => JsMap.set m (fst kv) (snd kv)) entries acc))
  <-> In k (JsMap.keys acc) \/ In k (map fst entries).
Proof.
  revert acc. induction entries as [|[k' v'] entries IH]; simpl; intros acc.
  - tauto.
  - rewrite IH, map_set_keys.
    destruct (JsMap.has acc (Some k')) eqn:Hhas.
    + apply map_has_keys in Hhas. split.
      * tauto.
      * intros [H|[<-|H]]; auto.
    + rewrite in_app_iff. simpl. tauto.
Qed.

Lemma map_set_values (P : json -> Prop) (m : JsMap.t) (k : string) (v : json) :
  P v -> Forall (fun kv => P (snd kv)) m ->
  Forall (fun kv => P (snd kv)) (JsMap.set m k v).
Proof.
  intros Hv. induction m as [|[k' v'] m IH]; simpl; intros Hall.
  - constructor; auto.
  - inversion Hall; subst.
    destruct (String.eqb_spec k' k); constructor; auto.
Qed.

Lemma map_fold_values (P : json -> Prop) (entries : list (string * json))
  (acc : JsMap.t) :
  Forall (fun kv => P (snd kv)) entries ->
  Forall (fun kv => P (snd kv)) acc ->
  Forall (fun kv => P (snd kv))
    (fold_left (fun m kv => JsMap.set m (fst kv) (snd kv)) entries acc).
Proof.
  revert acc. induction entries as [|kv entries IH]; simpl; intros acc He Ha.
  - assumption.
  - inversion He; subst. apply IH; [assumption|].
    apply map_set_values; assumption.
Qed.

(** ** The baseline loader *)

Lemma map_new_array_get (elements : list string) (k : string) :
  In k elements ->
  JsMap.get (JsMap.new (map (fun element => (element, JNull)) elements)) k
  = Some JNull.
Proof.
  intros Hin.
  set (m := JsMap.new (map (fun element => (element, JNull)) elements)).
  destruct (JsMap.get m k) as [v|] eqn:Hget.
  - apply map_get_in in Hget.
    assert (Hall : Forall (fun kv => snd kv = JNull) m).
    { apply (map_fold_values (fun v => v = JNull)); [|constructor].
      apply Forall_forall. intros kv Hkv. apply in_map_iff in Hkv.
      destruct Hkv as [e [<- _]]. reflexivity. }
    rewrite Forall_forall in Hall. specialize (Hall _ Hget). simpl in Hall.
    congruence.
  - exfalso. apply map_get_none in Hget. apply Hget.
    apply map_fold_keys. right. rewrite map_map. simpl. rewrite map_id.
    assumption.
Qed.

Lemma map_new_array_miss (elements : list string) (k : string) :
  ~ In k elements ->
  JsMap.get (JsMap.new (map (fun element => (element, JNull)) elements)) k = None.
Proof.
  intros Hout. apply map_get_none. intros Hin. apply map_fold_keys in Hin.
  destruct Hin as [[]|Hin]. rewrite map_map in Hin. simpl in Hin.
  rewrite map_id in Hin. contradiction.
Qed.

(** C4. The baseline loader: an array of strings becomes the map that
    sends each element to [null] (and has no other key); a non-null object
    becomes the map of its entries; any other root (null, a boolean, a
    number, a string) prints an error and ends the process with code 1. *)
Theorem readBaseline_shapes (g : globals) (elements : list string)
  (props : list (string * json)) :
  NoDup (map fst props) ->
  (exists m,
      readBaseline g (inr (RootArray elements)) = ret m /\
      JsMap.ok m /\
      (forall k, In k elements -> JsMap.get m k = Some JNull) /\
      (forall k, ~ In k elements -> JsMap.get m k = None)) /\
  readBaseline g (inr (RootObject props)) = ret props /\
  (forall root,
      root = RootNull \/ (exists b, root = RootBool b) \/
      (exists n, root = RootNumber n) \/ (exists s, root = RootString s) ->
      readBaseline g (inr root)
      = ([console_error ("ERROR: Invalid format for " ++ Str.dquote
                         ++ dashLicensesBaseline g ++ Str.dquote)],
         Exit 1)).
Proof.
  intros Hnd. split; [|split].
  - eexists. split; [reflexivity|]. split; [apply map_new_ok|]. split.
    + intros k. apply map_new_array_get.
    + intros k. apply map_new_array_miss.
  - simpl. rewrite map_new_nodup by assumption. reflexivity.
  - intros root [->|[[b ->]|[[n ->]|[s ->]]]]; reflexivity.
Qed.

Lemma readBaseline_shapes_witness :
  NoDup (map fst [("A", JObj [("note", JNum (S754_finite false 1 0))])]) /\
  readBaseline sample_globals (inr (RootArray ["A"; "B"]))
  = ret [("A", JNull); ("B", JNull)] /\
  readBaseline sample_globals
    (inr (RootObject [("A", JObj [("note", JNum (S754_finite false 1 0))])]))
  = ret [("A", JObj [("note", JNum (S754_finite false 1 0))])].
Proof.
  assert (Hnd : NoDup (map fst [("A", JObj [("note", JNum (S754_finite false 1 0))])])).
  { simpl. constructor; [intros [] | constructor]. }
  split; [exact Hnd|]. split; [reflexivity|].
  exact (proj1 (proj2 (readBaseline_shapes sample_globals ["A"; "B"] _ Hnd))).
Defined.

(** ** Child processes *)

Lemma outcome_bind {A B : Type} (m : M A) (k : A -> M B) :
  outcome (bind m k)
  = match outcome m with
    | Normal a => outcome (k a)
    | Exit code => Exit code
    | Throw e => Throw e
    end.
Proof.
  destruct m as [out [a|code|e]]; simpl; try reflexivity.
  destruct (k a); reflexivity.
Qed.

Lemma printed_bind {A B : Type} (m : M A) (k : A -> M B) :
  printed (bind m k)
  = (printed m ++ match outcome m with
                  | Normal a => printed (k a)
                  | _ => []
                  end)%list.
Proof.
  destruct m as [out [a|code|e]]; simpl; try (rewrite app_nil_r; reflexivity).
  destruct (k a); reflexivity.
Qed.

Lemma settle_code (m : M unit) :
  snd (settle m)
  = match outcome m with
    | Normal _ => 0
    | Exit code => code
    | Throw _ => 1
    end.
Proof. destruct m as [out [a|code|e]]; reflexivity. Qed.

Lemma spawn_error (bin : string) (args : list string) (opts : SpawnSyncOptions)
  (child : child_result) (e : js_error) :
  child_error child = Some e ->
  spawn bin args opts child = ([console_error_value e], Exit 1).
Proof. intros H. unfold spawn. simpl. rewrite H. reflexivity. Qed.

Lemma spawn_started (bin : string) (args : list string) (opts : SpawnSyncOptions)
  (child : child_result) :
  child_error child = None ->
  exists o,
    spawn bin args opts child
    = ret {| Status.error := None;
             Status.signal := child_signal child;
             Status.status := child_status child;
             Status.bin := bin; Status.args := args; Status.opts := o |}.
Proof. intros H. unfold spawn. simpl. rewrite H. eexists. reflexivity. Qed.

(** Replace the [spawn] of a process that started by the status it returns. *)
Ltac spawn_returns Herr :=
  match goal with
  | |- context [spawn ?b ?a ?o ?c] =>
      let o' := fresh "o" in
      destruct (spawn_started b a o c Herr) as [o' ->]
  end.

Lemma getErrorFromStatus_failed (status : Status.SpawnSyncReturns) :
  Status.signal status <> None \/ Status.status status <> Some 0 ->
  exists message,
    getErrorFromStatus status = Some message /\ is_error (Some message) = true.
Proof.
  intros Hfailed. unfold getErrorFromStatus.
  destruct (Status.signal status) as [sig|].
  - eexists. split; reflexivity.
  - destruct (Status.status status) as [[|code|code]|].
    + destruct Hfailed as [H|H]; exfalso; apply H; reflexivity.
    + eexists. split; reflexivity.
    + eexists. split; reflexivity.
    + eexists. split; reflexivity.
Qed.

(** Name the message [getErrorFromStatus] builds for a failed process. *)
Ltac failure_message Hfailed message :=
  match goal with
  | |- context [getErrorFromStatus ?s] =>
      destruct (getErrorFromStatus_failed s Hfailed) as [message [-> ->]]
  end.

Lemma getErrorFromStatus_ok (status : Status.SpawnSyncReturns) :
  Status.signal status = None -> Status.status status = Some 0 ->
  getErrorFromStatus status = None.
Proof. intros Hs Hc. unfold getErrorFromStatus. rewrite Hs, Hc. reflexivity. Qed.

Lemma outcome_ret {A : Type} (a : A) : outcome (ret a) = Normal a.
Proof. reflexivity. Qed.

Lemma printed_ret {A : Type} (a : A) : printed (ret a) = [].
Proof. reflexivity. Qed.

Lemma outcome_info (g : globals) (text : string) : outcome (info g text) = Normal tt.
Proof. reflexivity. Qed.

Lemma fetch_outcome (g : globals) (w : world) :
  outcome (fetch g w) = Normal tt \/ outcome (fetch g w) = Exit 1 \/
  exists e, outcome (fetch g w) = Throw e.
Proof.
  unfold fetch. destruct (jar_exists w); simpl negb; cbv iota.
  - left. reflexivity.
  - rewrite outcome_bind, outcome_info.
    destruct (mkdir_error w) as [e|].
    + right. right. exists e. reflexivity.
    + rewrite bind_ret_l, outcome_bind.
      destruct (child_error (curl w)) as [e|] eqn:Herr.
      * rewrite (spawn_error _ _ _ _ _ Herr). right. left. reflexivity.
      * spawn_returns Herr. rewrite !outcome_ret.
        match goal with
        | |- context [is_error ?x] => destruct (is_error x)
        end.
        -- right. left. reflexivity.
        -- left. reflexivity.
Qed.

Lemma backup_outcome (g : globals) (w : world) :
  outcome (backup g w) = Normal tt \/ exists e, outcome (backup g w) = Throw e.
Proof.
  unfold backup. destruct (summary_exists w).
  - destruct (rename_error w) as [e|].
    + right. exists e. reflexivity.
    + left. reflexivity.
  - left. reflexivity.
Qed.

Lemma scan_outcome (g : globals) (w : world) :
  outcome (scan g w)
  = match child_error (java w) with
    | Some _ => Exit 1
    | None => Normal tt
    end.
Proof.
  unfold scan. rewrite outcome_bind, outcome_info, outcome_bind.
  destruct (child_error (java w)) as [e|] eqn:Herr.
  - rewrite (spawn_error _ _ _ _ _ Herr). reflexivity.
  - spawn_returns Herr. rewrite outcome_ret.
    match goal with
    | |- context [is_error ?x] => destruct (is_error x)
    end; reflexivity.
Qed.

(** The exit code of the whole run, by the stage that ends it. *)
Lemma exit_code_stages {locale : HostLocale} (g : globals) (w : world) :
  exit_code g w
  = match outcome (fetch g w) with
    | Normal _ =>
        match outcome (backup g w) with
        | Normal _ =>
            match outcome (scan g w) with
            | Normal _ => snd (settle (check g w))
            | Exit code => code
            | Throw _ => 1
            end
        | Exit code => code
        | Throw _ => 1
        end
    | Exit code => code
    | Throw _ => 1
    end.
Proof.
  unfold exit_code, program, main.
  rewrite settle_code, !outcome_bind.
  destruct (outcome (fetch g w)); try reflexivity.
  destruct (outcome (backup g w)); try reflexivity.
  destruct (outcome (scan g w)); try reflexivity.
  rewrite settle_code. reflexivity.
Qed.

Lemma exit_code_reached {locale : HostLocale} (g : globals) (w : world) :
  reaches_check g w -> exit_code g w = snd (settle (check g w)).
Proof.
  unfold reaches_check. rewrite !outcome_bind, exit_code_stages.
  destruct (outcome (fetch g w)); try discriminate.
  destruct (outcome (backup g w)); try discriminate.
  destruct (outcome (scan g w)); try discriminate.
  reflexivity.
Qed.

(** Whatever ends the run before the summary is read ends it with code 1. *)
Lemma exit_code_cases {locale : HostLocale} (g : globals) (w : world) :
  exit_code g w = 1 \/
  (reaches_check g w /\ exit_code g w = snd (settle (check g w))).
Proof.
  unfold reaches_check. rewrite exit_code_stages, !outcome_bind.
  destruct (fetch_outcome g w) as [-> | [-> | [e ->]]]; auto.
  destruct (backup_outcome g w) as [-> | [e ->]]; auto.
  rewrite scan_outcome. destruct (child_error (java w)); auto.
Qed.

Lemma bind_assoc {A B C : Type} (m : M A) (k : A -> M B) (h : B -> M C) :
  bind (bind m k) h = bind m (fun a => bind (k a) h).
Proof.
  destruct m as [out [a|code|e]]; simpl; try reflexivity.
  destruct (k a) as [out' [b|code|e]]; simpl; try reflexivity.
  destruct (h b) as [out'' c]. rewrite app_assoc. reflexivity.
Qed.

Lemma settle_bind_normal {A : Type} (m : M A) (k : A -> M unit) (a : A) :
  outcome m = Normal a ->
  settle (bind m k)
  = ((printed m ++ fst (settle (k a)))%list, snd (settle (k a))).
Proof.
  destruct m as [out c]. simpl. intros ->. simpl.
  destruct (k a) as [out' [u|code|e]]; simpl; try reflexivity.
  rewrite app_assoc. reflexivity.
Qed.

Lemma program_reached {locale : HostLocale} (g : globals) (w : world) :
  reaches_check g w ->
  program g w
  = ((printed (fetch g w ;; backup g w ;; scan g w)
      ++ fst (settle (check g w)))%list,
     snd (settle (check g w))).
Proof.
  intros Hreach. unfold program, main.
  change (fetch g w;; backup g w;; scan g w;; check g w)
    with (bind (fetch g w) (fun _ => bind (backup g w)
            (fun _ => bind (scan g w) (fun _ => check g w)))).
  rewrite <- (bind_assoc (backup g w) (fun _ => scan g w) (fun _ => check g w)).
  rewrite <- (bind_assoc (fetch g w) (fun _ => backup g w;; scan g w)
                (fun _ => check g w)).
  apply (settle_bind_normal (fetch g w;; backup g w;; scan g w)
           (fun _ => check g w) tt).
  exact Hreach.
Qed.

Lemma scan_failed (g : globals) (w : world) :
  child_error (java w) = None -> failed (java w) ->
  exists message,
    scan g w
    = ([console_warn (cyan g "INFO: Running dash-licenses...");
        console_warn (yellow g ("WARN: " ++ message))],
       Normal tt).
Proof.
  intros Herr Hfailed. unfold scan.
  spawn_returns Herr. rewrite bind_ret_l.
  failure_message Hfailed message.
  exists message. reflexivity.
Qed.

Lemma fetch_failed (g : globals) (w : world) :
  jar_exists w = false -> mkdir_error w = None ->
  child_error (curl w) = None -> failed (curl w) ->
  exists message,
    fetch g w
    = ([console_warn (cyan g "INFO: Fetching dash-licenses...");
        console_error (red g ("ERROR: " ++ message))],
       Exit 1).
Proof.
  intros Hjar Hmk Herr Hfailed. unfold fetch. rewrite Hjar, Hmk. simpl negb.
  cbv iota. rewrite bind_ret_l.
  spawn_returns Herr. rewrite bind_ret_l.
  failure_message Hfailed message.
  exists message. reflexivity.
Qed.

(** C10. A child process that cannot be started ends the run with exit
    code 1, whichever of the two it is: [spawn] prints the spawn error and
    exits.  For the scanner this holds in every run; for the download in
    every run that needs it.  A scanner that did start never ends the run
    at this step. *)
Theorem spawn_failure_aborts {locale : HostLocale} (g : globals) (w : world)
  (child : child_result) (e : js_error) :
  child_error child = Some e ->
  (forall bin args opts,
      spawn bin args opts child = ([console_error_value e], Exit 1)) /\
  (java w = child ->
   scan g w
   = ([console_warn (cyan g "INFO: Running dash-licenses...");
       console_error_value e], Exit 1) /\
   exit_code g w = 1) /\
  (curl w = child -> jar_exists w = false -> exit_code g w = 1) /\
  (forall w', child_error (java w') = None -> outcome (scan g w') = Normal tt).
Proof.
  intros Herr. split; [|split; [|split]].
  - intros. apply spawn_error. assumption.
  - intros Hjava. subst child. split.
    + unfold scan. rewrite (spawn_error _ _ _ _ _ Herr). reflexivity.
    + destruct (exit_code_cases g w) as [H|[Hreach _]]; [assumption|].
      unfold reaches_check in Hreach. rewrite !outcome_bind in Hreach.
      rewrite scan_outcome, Herr in Hreach.
      destruct (outcome (fetch g w)); try discriminate.
      destruct (outcome (backup g w)); discriminate.
  - intros Hcurl Hjar. subst child. rewrite exit_code_stages.
    unfold fetch. rewrite Hjar. simpl negb. cbv iota.
    rewrite outcome_bind, outcome_info.
    destruct (mkdir_error w) as [e'|].
    + reflexivity.
    + rewrite bind_ret_l, (spawn_error _ _ _ _ _ Herr). reflexivity.
  - intros w' H. rewrite scan_outcome, H. reflexivity.
Qed.

Lemma spawn_failure_aborts_witness :
  child_error child_not_started = Some ENOENT /\
  exit_code (locale := ascii_locale) sample_globals
    (sample_world child_not_started sample_lines false (inr RootNull)) = 1 /\
  exit_code (locale := ascii_locale) sample_globals
    (sample_download child_not_started) = 1.
Proof.
  split; [reflexivity|]. split.
  - exact (proj2 (proj1 (proj2 (spawn_failure_aborts (locale := ascii_locale)
             sample_globals
             (sample_world child_not_started sample_lines false (inr RootNull))
             child_not_started ENOENT eq_refl)) eq_refl)).
  - exact (proj1 (proj2 (proj2 (spawn_failure_aborts (locale := ascii_locale)
             sample_globals (sample_download child_not_started)
             child_not_started ENOENT eq_refl))) eq_refl eq_refl).
Defined.

(** ** Reconciliation with the baseline *)

Lemma filter_filter {A : Type} (f h : A -> bool) (l : list A) :
  filter f (filter h l) = filter (fun x => h x && f x) l.
Proof.
  induction l as [|x l IH]; simpl; [reflexivity|].
  destruct (h x); simpl; [destruct (f x)|]; rewrite IH; reflexivity.
Qed.

Lemma filter_all {A : Type} (l : list A) : filter (fun _ => true) l = l.
Proof. induction l as [|x l IH]; simpl; [|rewrite IH]; reflexivity. Qed.

Lemma set_mem_in (s : JsSet.t) (k : string) : JsSet.mem s k = true <-> In k s.
Proof.
  unfold JsSet.mem. rewrite existsb_exists. split.
  - intros [x [Hin Heq]]. apply String.eqb_eq in Heq. subst. assumption.
  - intros Hin. exists k. split; [assumption | apply String.eqb_refl].
Qed.

Lemma set_fold_nodup (ks : list string) (acc : JsSet.t) :
  NoDup (acc ++ ks) -> fold_left JsSet.add ks acc = (acc ++ ks)%list.
Proof.
  revert acc. induction ks as [|k ks IH]; simpl; intros acc Hnd.
  - rewrite app_nil_r. reflexivity.
  - assert (Hfresh : JsSet.mem acc k = false).
    { destruct (JsSet.mem acc k) eqn:Hmem; [|reflexivity].
      apply set_mem_in in Hmem. apply NoDup_remove_2 in Hnd.
      exfalso. apply Hnd. apply in_or_app. left. assumption. }
    unfold JsSet.add at 2. rewrite Hfresh. rewrite IH.
    + rewrite <- app_assoc. reflexivity.
    + rewrite <- app_assoc. exact Hnd.
Qed.

Lemma set_new_keys (m : JsMap.t) : JsMap.ok m -> JsSet.new (JsMap.keys m) = JsMap.keys m.
Proof. intros Hok. unfold JsSet.new. rewrite set_fold_nodup; auto. Qed.

Lemma set_delete_all (restricted : list DashSummaryEntry) (s : JsSet.t) :
  fold_left JsSet.delete (map dependency restricted) s
  = filter (fun k => negb (mentions restricted k)) s.
Proof.
  revert s. induction restricted as [|e rest IH]; simpl; intros s.
  - rewrite filter_all. reflexivity.
  - rewrite IH. unfold JsSet.delete. destruct (dependency e) as [d|].
    + rewrite filter_filter. apply filter_ext. intros k.
      rewrite (String.eqb_sym k d), negb_orb. reflexivity.
    + reflexivity.
Qed.

Lemma Array_filter_unhandled (restricted : list DashSummaryEntry) (c : closure) :
  Array_filter unhandled_callback restricted c
  = (filter (fun e => negb (JsMap.has (baseline_map c) (dependency e))) restricted,
     {| restricted_array := restricted_array c;
        baseline_map := baseline_map c;
        unmatched_set :=
          fold_left JsSet.delete (map dependency restricted) (unmatched_set c) |}).
Proof.
  revert c. induction restricted as [|e rest IH]; intros [r b u]; simpl.
  - reflexivity.
  - rewrite IH. simpl. destruct (JsMap.has b (dependency e)); reflexivity.
Qed.

Lemma reconcile_result (restricted : list DashSummaryEntry) (baseline : JsMap.t) :
  JsMap.ok baseline ->
  reconcile restricted baseline
  = (filter (fun e => negb (JsMap.has baseline (dependency e))) restricted,
     {| restricted_array := restricted;
        baseline_map := baseline;
        unmatched_set :=
          filter (fun k => negb (mentions restricted k)) (JsMap.keys baseline) |}).
Proof.
  intros Hok. unfold reconcile. simpl. rewrite Array_filter_unhandled. simpl.
  rewrite set_delete_all, set_new_keys by assumption. reflexivity.
Qed.

Lemma readBaseline_ok (g : globals) (file : js_error + baseline_json)
  (baseline : JsMap.t) :
  readBaseline g file = ret baseline -> JsMap.ok baseline.
Proof.
  destruct file as [e|[elements|props| |b|n|s]]; simpl; try discriminate;
    intros [= <-]; apply map_new_ok.
Qed.

Lemma report_unmatched_lines (g : globals) (baseline : JsMap.t) (ks : list string) :
  for_of ks (fun dependency =>
    emit (console_log (magenta g ("> " ++ dependency))) ;;
    let data := JsMap.get baseline dependency in
    if truthy data
    then match data with
         | Some d => emit (console_warn_data (dependency ++ ":") d)
         | None => ret tt
         end
    else ret tt)
  = (flat_map (unmatched_lines g baseline) ks, Normal tt).
Proof.
  apply for_of_lines. intros k. unfold unmatched_lines. cbv zeta.
  destruct (JsMap.get baseline k) as [d|]; [|reflexivity].
  destruct (truthy (Some d)); reflexivity.
Qed.

Lemma report_unmatched_result (g : globals) (c : closure) :
  report_unmatched g c
  = (match unmatched_set c with
     | [] => []
     | _ :: _ =>
         console_warn (yellow g "WARN: Some entries in the baseline did not match anything from dash-licenses output:")
         :: flat_map (unmatched_lines g (baseline_map c)) (unmatched_set c)
     end,
     Normal tt).
Proof.
  unfold report_unmatched. destruct (unmatched_set c) as [|k ks] eqn:Hu.
  - reflexivity.
  - change (0 <? JsSet.size (k :: ks))%nat with true. cbv iota.
    rewrite report_unmatched_lines. reflexivity.
Qed.

Lemma check_baseline_result (g : globals) (restricted : list DashSummaryEntry)
  (file : js_error + baseline_json) (baseline : JsMap.t) :
  readBaseline g file = ret baseline ->
  check_baseline g restricted file
  = ((console_warn (cyan g "INFO: Checking results against the baseline...")
      :: printed (report_unmatched g (snd (reconcile restricted baseline)))
      ++ match fst (reconcile restricted baseline) with
         | [] => []
         | _ :: _ =>
             console_error (red g "ERROR: Found results that aren't part of the baseline!")
             :: map (finding_line g) (fst (reconcile restricted baseline))
         end)%list,
     match fst (reconcile restricted baseline) with
     | [] => Normal tt
     | _ :: _ => Exit 1
     end).
Proof.
  intros Hread. unfold check_baseline, info, error. rewrite Hread.
  rewrite bind_emit, bind_ret_l.
  destruct (reconcile restricted baseline) as [unhandled c]. simpl fst. simpl snd.
  rewrite report_unmatched_result, bind_normal.
  unfold printed at 1. simpl fst.
  destruct unhandled as [|e unhandled].
  - simpl. rewrite !app_nil_r. reflexivity.
  - change (0 <? List.length (e :: unhandled))%nat with true. cbv iota.
    rewrite bind_emit, logRestricted_lines, bind_normal.
    unfold printed, outcome, process_exit. cbn [fst snd].
    rewrite app_nil_r. reflexivity.
Qed.

Lemma check_classified {locale : HostLocale} (g : globals) (w : world)
  (restricted : list DashSummaryEntry) :
  getRestrictedDependenciesFromSummary (summary_file w) = ret restricted ->
  check g w
  = match restricted with
    | [] => ([console_warn (cyan g "INFO: Done.")], Exit 0)
    | _ :: _ =>
        if baseline_exists w
        then bind (check_baseline g restricted (baseline_file w))
               (fun _ => info g "Done." ;; process_exit 0)
        else (console_error (red g "ERROR: Found unhandled restricted dependencies!")
              :: map (finding_line g) restricted,
              Exit 1)
    end.
Proof.
  intros Hcls. unfold check. rewrite Hcls, bind_ret_l.
  destruct restricted as [|e rest].
  - reflexivity.
  - change (0 <? List.length (e :: rest))%nat with true. cbv iota.
    destruct (baseline_exists w); [reflexivity|].
    unfold error. rewrite bind_assoc, bind_emit.
    rewrite bind_assoc, logRestricted_lines, bind_normal.
    unfold printed, outcome. cbn [fst snd bind process_exit].
    rewrite app_nil_r. reflexivity.
Qed.

Lemma check_reconciled_code {locale : HostLocale} (g : globals) (w : world)
  (restricted : list DashSummaryEntry) (baseline : JsMap.t) :
  getRestrictedDependenciesFromSummary (summary_file w) = ret restricted ->
  baseline_exists w = true ->
  readBaseline g (baseline_file w) = ret baseline ->
  snd (settle (check g w))
  = match fst (reconcile restricted baseline) with
    | [] => 0
    | _ :: _ => 1
    end.
Proof.
  intros Hcls Hex Hread. rewrite (check_classified g w _ Hcls).
  destruct restricted as [|e rest]; [reflexivity|].
  rewrite Hex, settle_code, outcome_bind.
  rewrite (check_baseline_result g (e :: rest) _ _ Hread).
  unfold outcome at 2. cbn [snd].
  destruct (fst (reconcile (e :: rest) baseline)); reflexivity.
Qed.

Lemma check_reconciled_lines {locale : HostLocale} (g : globals) (w : world)
  (restricted : list DashSummaryEntry) (baseline : JsMap.t) :
  getRestrictedDependenciesFromSummary (summary_file w) = ret restricted ->
  baseline_exists w = true ->
  readBaseline g (baseline_file w) = ret baseline ->
  fst (reconcile restricted baseline) <> [] ->
  fst (settle (check g w))
  = (console_warn (cyan g "INFO: Checking results against the baseline...")
     :: printed (report_unmatched g (snd (reconcile restricted baseline)))
     ++ console_error (red g "ERROR: Found results that aren't part of the baseline!")
     :: map (finding_line g) (fst (reconcile restricted baseline)))%list.
Proof.
  intros Hcls Hex Hread Hne. rewrite (check_classified g w _ Hcls).
  destruct restricted as [|e rest]; [exfalso; apply Hne; reflexivity|].
  rewrite Hex, (check_baseline_result g (e :: rest) _ _ Hread).
  destruct (fst (reconcile (e :: rest) baseline)) as [|u us];
    [exfalso; apply Hne; reflexivity|].
  reflexivity.
Qed.

(** C1. For every restricted list and every baseline map, the filter of
    lines 63-67 leaves in [unhandled] exactly the restricted entries whose
    dependency is not a key of the baseline, in their order, and in
    [unmatched] exactly the baseline keys that are the dependency of no
    restricted entry, in their order.  In a run that gets as far as the
    summary and loads this baseline, the exit code is 1 if and only if
    [unhandled] is not empty (and 0 otherwise), and the last lines printed
    are then the error line followed by one line
    [X {dependency}, {license}] (in red unless colours are off) per
    unhandled entry. *)
Theorem reconcile_unhandled_unmatched {locale : HostLocale} (g : globals)
  (restricted : list DashSummaryEntry) (baseline : JsMap.t) :
  JsMap.ok baseline ->
  fst (reconcile restricted baseline)
  = filter (fun e => negb (JsMap.has baseline (dependency e))) restricted /\
  unmatched_set (snd (reconcile restricted baseline))
  = filter (fun k => negb (mentions restricted k)) (JsMap.keys baseline) /\
  (forall e, In e (fst (reconcile restricted baseline)) <->
             In e restricted /\
             forall k, dependency e = Some k -> ~ In k (JsMap.keys baseline)) /\
  (forall k, In k (unmatched_set (snd (reconcile restricted baseline))) <->
             In k (JsMap.keys baseline) /\
             forall e, In e restricted -> dependency e <> Some k) /\
  (forall w,
      reaches_check g w ->
      getRestrictedDependenciesFromSummary (summary_file w) = ret restricted ->
      baseline_exists w = true ->
      readBaseline g (baseline_file w) = ret baseline ->
      (exit_code g w = 1 <-> fst (reconcile restricted baseline) <> []) /\
      (exit_code g w = 0 <-> fst (reconcile restricted baseline) = []) /\
      (fst (reconcile restricted baseline) <> [] ->
       exists before,
         fst (program g w)
         = (before
            ++ console_error (red g "ERROR: Found results that aren't part of the baseline!")
            :: map (finding_line g) (fst (reconcile restricted baseline)))%list)).
Proof.
  intros Hok. rewrite (reconcile_result restricted baseline Hok). cbn [fst snd unmatched_set].
  split; [reflexivity|]. split; [reflexivity|]. split; [|split].
  - intros e. rewrite filter_In, negb_true_iff. split.
    + intros [Hin Hhas]. split; [assumption|]. intros k Hk Hkey.
      rewrite Hk in Hhas. apply map_has_keys in Hkey. congruence.
    + intros [Hin Hkeys]. split; [assumption|].
      destruct (dependency e) as [k|]; [|reflexivity].
      destruct (JsMap.has baseline (Some k)) eqn:Hhas; [|reflexivity].
      exfalso. apply (Hkeys k eq_refl). apply map_has_keys. assumption.
  - intros k. rewrite filter_In, negb_true_iff. unfold mentions. split.
    + intros [Hin Hno]. split; [assumption|]. intros e He Hdep.
      assert (Hyes : existsb (fun e0 => match dependency e0 with
                                        | Some d => (d =? k)%string
                                        | None => false
                                        end) restricted = true).
      { apply existsb_exists. exists e. split; [assumption|].
        rewrite Hdep. apply String.eqb_refl. }
      congruence.
    + intros [Hin Hno]. split; [assumption|].
      destruct (existsb _ restricted) eqn:Hex; [|reflexivity].
      apply existsb_exists in Hex. destruct Hex as [e [He Hd]].
      exfalso. apply (Hno e He). destruct (dependency e) as [d|]; [|discriminate].
      apply String.eqb_eq in Hd. congruence.
  - intros w Hreach Hcls Hex Hread.
    pose proof (check_reconciled_code g w _ _ Hcls Hex Hread) as Hcode.
    pose proof (check_reconciled_lines g w _ _ Hcls Hex Hread) as Hlines.
    rewrite (reconcile_result restricted baseline Hok) in Hcode, Hlines.
    cbn [fst snd] in Hcode, Hlines.
    rewrite (exit_code_reached g w Hreach), Hcode.
    split; [|split].
    + destruct (filter _ restricted); split; intros H; try discriminate;
        try reflexivity; congruence.
    + destruct (filter _ restricted); split; intros H; try discriminate;
        try reflexivity; congruence.
    + intros Hne. rewrite (program_reached g w Hreach). cbn [fst].
      rewrite (Hlines Hne).
      eexists. rewrite app_comm_cons, app_assoc. reflexivity.
Qed.

Lemma reconcile_unhandled_unmatched_witness :
  JsMap.ok [("A", JNull); ("Z", JStr "note")] /\
  fst (reconcile [entry_A; entry_B] [("A", JNull); ("Z", JStr "note")])
  = [entry_B] /\
  unmatched_set (snd (reconcile [entry_A; entry_B] [("A", JNull); ("Z", JStr "note")]))
  = ["Z"] /\
  exit_code (locale := ascii_locale) sample_globals
    (sample_world child_ok sample_lines true
       (inr (RootObject [("A", JNull); ("Z", JStr "note")])))
  = 1.
Proof.
  assert (Hok : JsMap.ok [("A", JNull); ("Z", JStr "note")]).
  { unfold JsMap.ok. simpl. constructor.
    - intros [H|[]]. discriminate H.
    - constructor; [intros [] | constructor]. }
  destruct (reconcile_unhandled_unmatched (locale := ascii_locale)
              sample_globals [entry_A; entry_B]
              [("A", JNull); ("Z", JStr "note")] Hok)
    as [Hunhandled [Hunmatched [_ [_ Hrun]]]].
  split; [exact Hok|]. split; [rewrite Hunhandled; reflexivity|].
  split; [rewrite Hunmatched; reflexivity|].
  apply (Hrun (sample_world child_ok sample_lines true
                 (inr (RootObject [("A", JNull); ("Z", JStr "note")])))
           eq_refl eq_refl eq_refl eq_refl).
  rewrite Hunhandled. simpl. discriminate.
Defined.

(** C6. With no baseline file and a non-empty restricted list the check
    prints the error line and then every restricted entry as
    [X {dependency}, {license}], the format of the unhandled findings, and
    ends the process with code 1; the run as a whole exits with 1. *)
Theorem no_baseline_is_fatal {locale : HostLocale} (g : globals) (w : world)
  (restricted : list DashSummaryEntry) :
  getRestrictedDependenciesFromSummary (summary_file w) = ret restricted ->
  restricted <> [] ->
  baseline_exists w = false ->
  check g w
  = (console_error (red g "ERROR: Found unhandled restricted dependencies!")
     :: map (finding_line g) restricted,
     Exit 1) /\
  exit_code g w = 1 /\
  (reaches_check g w ->
   program g w
   = ((printed (fetch g w ;; backup g w ;; scan g w)
       ++ console_error (red g "ERROR: Found unhandled restricted dependencies!")
       :: map (finding_line g) restricted)%list,
      1)).
Proof.
  intros Hcls Hne Hex.
  assert (Hcheck : check g w
    = (console_error (red g "ERROR: Found unhandled restricted dependencies!")
       :: map (finding_line g) restricted, Exit 1)).
  { rewrite (check_classified g w _ Hcls).
    destruct restricted as [|e rest]; [exfalso; apply Hne; reflexivity|].
    rewrite Hex. reflexivity. }
  split; [exact Hcheck|]. split.
  - destruct (exit_code_cases g w) as [H|[_ H]]; [assumption|].
    rewrite H, Hcheck. reflexivity.
  - intros Hreach. rewrite (program_reached g w Hreach), Hcheck. reflexivity.
Qed.

Lemma no_baseline_is_fatal_witness :
  getRestrictedDependenciesFromSummary (locale := ascii_locale)
    (summary_file (sample_world child_ok sample_lines false (inr RootNull)))
  = ret [entry_A; entry_B] /\
  [entry_A; entry_B] <> [] /\
  program (locale := ascii_locale) sample_globals
    (sample_world child_ok sample_lines false (inr RootNull))
  = ([console_warn "INFO: Running dash-licenses...";
      console_error "ERROR: Found unhandled restricted dependencies!";
      console_log "X A, lic"; console_log "X B, lic"], 1).
Proof.
  assert (Hne : [entry_A; entry_B] <> []) by discriminate.
  split; [reflexivity|]. split; [exact Hne|].
  exact (proj2 (proj2 (no_baseline_is_fatal (locale := ascii_locale)
           sample_globals
           (sample_world child_ok sample_lines false (inr RootNull))
           [entry_A; entry_B] eq_refl Hne eq_refl)) eq_refl).
Defined.

Lemma reconcile_unhandled (restricted : list DashSummaryEntry) (baseline : JsMap.t) :
  fst (reconcile restricted baseline)
  = filter (fun e => negb (JsMap.has baseline (dependency e))) restricted.
Proof.
  unfold reconcile. cbn [restricted_array].
  rewrite Array_filter_unhandled. reflexivity.
Qed.

Lemma reconcile_keeps_baseline (restricted : list DashSummaryEntry)
  (baseline : JsMap.t) :
  baseline_map (snd (reconcile restricted baseline)) = baseline.
Proof.
  unfold reconcile. cbn [restricted_array].
  rewrite Array_filter_unhandled. reflexivity.
Qed.

(** ** The report on unmatched baseline entries *)

Lemma in_unmatched_lines (g : globals) (baseline : JsMap.t) (k k' : string)
  (d : json) :
  In (console_warn_data (k ++ ":") d) (unmatched_lines g baseline k') ->
  exists d', JsMap.get baseline k' = Some d' /\ d = d' /\ truthy (Some d') = true.
Proof.
  unfold unmatched_lines. intros [H|H]; [discriminate H|].
  destruct (JsMap.get baseline k') as [d'|]; [|destruct H].
  destruct (truthy (Some d')) eqn:Ht; [|destruct H].
  destruct H as [H|[]]. injection H as _ Hd. exists d'. auto.
Qed.

(** C9, as the code has it.  When [unmatched] is not empty the report is
    one warning line, then for each unmatched key, in order, the line
    [> {key}] and, when the value stored for the key is truthy (not
    [null], [false], [0], [NaN] or the empty string), a line with the key
    and that value.  The report never ends the run: whether the check
    fails depends on [unhandled] alone. *)
Theorem unmatched_report (g : globals) (restricted : list DashSummaryEntry)
  (baseline : JsMap.t) :
  report_unmatched g (snd (reconcile restricted baseline))
  = (match unmatched_set (snd (reconcile restricted baseline)) with
     | [] => []
     | _ :: _ =>
         console_warn (yellow g "WARN: Some entries in the baseline did not match anything from dash-licenses output:")
         :: flat_map (unmatched_lines g baseline)
              (unmatched_set (snd (reconcile restricted baseline)))
     end,
     Normal tt) /\
  (forall k,
      In k (unmatched_set (snd (reconcile restricted baseline))) ->
      In (console_log (magenta g ("> " ++ k)))
         (printed (report_unmatched g (snd (reconcile restricted baseline)))) /\
      forall d,
        JsMap.get baseline k = Some d ->
        (In (console_warn_data (k ++ ":") d)
            (printed (report_unmatched g (snd (reconcile restricted baseline))))
         <-> truthy (Some d) = true)) /\
  (forall file,
      readBaseline g file = ret baseline ->
      outcome (check_baseline g restricted file)
      = match fst (reconcile restricted baseline) with
        | [] => Normal tt
        | _ :: _ => Exit 1
        end).
Proof.
  assert (Hb : baseline_map (snd (reconcile restricted baseline)) = baseline)
    by apply (reconcile_keeps_baseline restricted baseline).
  pose proof (report_unmatched_result g (snd (reconcile restricted baseline)))
    as Hreport.
  rewrite Hb in Hreport. split; [exact Hreport|]. split.
  - intros k Hk. rewrite Hreport. unfold printed. cbn [fst].
    destruct (unmatched_set (snd (reconcile restricted baseline)))
      as [|k0 ks] eqn:Hu; [destruct Hk|].
    split.
    + right. apply in_flat_map. exists k. split; [assumption|].
      left. reflexivity.
    + intros d Hget. split.
      * intros [H|H]; [discriminate H|].
        apply in_flat_map in H. destruct H as [k' [_ H]].
        apply in_unmatched_lines in H. destruct H as [d' [_ [-> Ht]]].
        assumption.
      * intros Ht. right. apply in_flat_map. exists k. split; [assumption|].
        unfold unmatched_lines. rewrite Hget, Ht. right. left. reflexivity.
  - intros file Hread.
    rewrite (check_baseline_result g restricted file baseline Hread).
    reflexivity.
Qed.

Lemma unmatched_report_witness :
  report_unmatched sample_globals
    (snd (reconcile [entry_A; entry_B]
            [("A", JNull); ("Z", JStr "note"); ("Y", JStr "")]))
  = ([console_warn "WARN: Some entries in the baseline did not match anything from dash-licenses output:";
      console_log "> Z"; console_warn_data "Z:" (JStr "note");
      console_log "> Y"],
     Normal tt).
Proof.
  rewrite (proj1 (unmatched_report sample_globals [entry_A; entry_B]
                    [("A", JNull); ("Z", JStr "note"); ("Y", JStr "")])).
  reflexivity.
Defined.

(** C9 as stated fails: the baseline [{"Z": false}] with the one restricted
    dependency A leaves Z unmatched with a stored value that is not
    [null]; the run prints [> Z] but not the value. *)
Lemma falsy_annotation_is_not_printed :
  In "Z" (unmatched_set (snd (reconcile [entry_A] [("Z", JBool false)]))) /\
  JsMap.get [("Z", JBool false)] "Z" = Some (JBool false) /\
  JBool false <> JNull /\
  In (console_log "> Z")
     (fst (program (locale := ascii_locale) sample_globals
             (sample_world child_ok ["A, lic, restricted, src"] true
                (inr (RootObject [("Z", JBool false)]))))) /\
  ~ In (console_warn_data "Z:" (JBool false))
       (fst (program (locale := ascii_locale) sample_globals
               (sample_world child_ok ["A, lic, restricted, src"] true
                  (inr (RootObject [("Z", JBool false)]))))).
Proof.
  split; [left; reflexivity|]. split; [reflexivity|].
  split; [discriminate|]. split.
  - vm_compute. tauto.
  - vm_compute. intros H.
    repeat (destruct H as [H|H]; [discriminate H|]). exact H.
Qed.

(** ** The classifier *)

Section Sorting.

Variable A : Type.
Variable cmp : A -> A -> Z.

Lemma insert_by_perm (x : A) (l : list A) : Permutation (x :: l) (insert_by cmp x l).
Proof.
  induction l as [|y l IH]; simpl.
  - apply Permutation_refl.
  - destruct (cmp x y <=? 0).
    + apply Permutation_refl.
    + apply perm_trans with (y :: x :: l); [apply perm_swap|].
      apply perm_skip. exact IH.
Qed.

Lemma sort_by_perm (l : list A) : Permutation l (sort_by cmp l).
Proof.
  induction l as [|x l IH]; simpl.
  - apply perm_nil.
  - apply perm_trans with (x :: sort_by cmp l).
    + apply perm_skip. exact IH.
    + apply insert_by_perm.
Qed.

Hypothesis cmp_total : forall a b, cmp a b <= 0 \/ cmp b a <= 0.
Hypothesis cmp_trans : forall a b c, cmp a b <= 0 -> cmp b c <= 0 -> cmp a c <= 0.

Lemma insert_by_sorted (x : A) (l : list A) :
  StronglySorted (fun a b => cmp a b <= 0) l ->
  StronglySorted (fun a b => cmp a b <= 0) (insert_by cmp x l).
Proof.
  induction l as [|y l IH]; simpl; intros Hs.
  - constructor; constructor.
  - inversion Hs as [|? ? Hl Hy]; subst.
    destruct (Z.leb_spec (cmp x y) 0) as [Hle|Hgt].
    + constructor; [assumption|]. constructor; [assumption|].
      rewrite Forall_forall in *. intros z Hz. eauto.
    + constructor; [apply IH; assumption|].
      apply Forall_forall. intros z Hz.
      apply Permutation_in with (l' := x :: l) in Hz;
        [|apply Permutation_sym, insert_by_perm].
      destruct Hz as [<-|Hz].
      * destruct (cmp_total x y) as [H|H]; [lia | assumption].
      * rewrite Forall_forall in Hy. auto.
Qed.

Lemma sort_by_sorted (l : list A) :
  StronglySorted (fun a b => cmp a b <= 0) (sort_by cmp l).
Proof.
  induction l as [|x l IH]; simpl.
  - constructor.
  - apply insert_by_sorted. exact IH.
Qed.

(** Stability: the entries that compare equal to a given one keep the
    order they had. *)
Lemma insert_by_stable (p : A) (x : A) (l : list A) :
  filter (fun a => (cmp a p <=? 0) && (cmp p a <=? 0)) (insert_by cmp x l)
  = filter (fun a => (cmp a p <=? 0) && (cmp p a <=? 0)) (x :: l).
Proof.
  induction l as [|y l IH]; simpl.
  - reflexivity.
  - destruct (Z.leb_spec (cmp x y) 0) as [Hle|Hgt].
    + reflexivity.
    + simpl. rewrite IH. simpl.
      destruct (Z.leb_spec (cmp x p) 0) as [Hxp|]; simpl; [|reflexivity].
      destruct (Z.leb_spec (cmp p x) 0) as [Hpx|]; simpl; [|reflexivity].
      destruct (Z.leb_spec (cmp y p) 0) as [Hyp|]; simpl; [|reflexivity].
      destruct (Z.leb_spec (cmp p y) 0) as [Hpy|]; simpl; [|reflexivity].
      exfalso. pose proof (cmp_trans x p y Hxp Hpy). lia.
Qed.

Lemma sort_by_stable (p : A) (l : list A) :
  filter (fun a => (cmp a p <=? 0) && (cmp p a <=? 0)) (sort_by cmp l)
  = filter (fun a => (cmp a p <=? 0) && (cmp p a <=? 0)) l.
Proof.
  induction l as [|x l IH]; simpl.
  - reflexivity.
  - rewrite insert_by_stable. simpl. rewrite IH. reflexivity.
Qed.

End Sorting.

Lemma sort_insert_pure {locale : HostLocale} (x : DashSummaryEntry)
  (l : list DashSummaryEntry) :
  dependency x <> None ->
  sort_insert compare_dependency x l = ret (insert_by dependency_order x l).
Proof.
  intros Hx. induction l as [|y l IH]; simpl.
  - reflexivity.
  - unfold compare_dependency at 1.
    destruct (dependency x) as [d|] eqn:Hd; [|contradiction Hx; reflexivity].
    rewrite bind_ret_l. unfold dependency_order at 1. rewrite Hd.
    cbn [to_string].
    destruct (localeCompare d (to_string (dependency y)) <=? 0); [reflexivity|].
    rewrite IH, bind_ret_l. reflexivity.
Qed.

Lemma Array_sort_pure {locale : HostLocale} (l : list DashSummaryEntry) :
  Forall (fun e => dependency e <> None) l ->
  Array_sort compare_dependency l = ret (sort_by dependency_order l).
Proof.
  induction l as [|x l IH]; simpl; intros Hall.
  - reflexivity.
  - inversion Hall; subst. rewrite IH by assumption.
    rewrite bind_ret_l. apply sort_insert_pure. assumption.
Qed.

Lemma collect_defined {locale : HostLocale} (entries acc : list DashSummaryEntry) :
  Forall (fun e => status e <> None) entries ->
  for_await_items entries
    (fun entry restricted =>
       r <- is_restricted entry ;;
       if r then ret (restricted ++ [entry])%list else ret restricted)
    acc
  = ret (acc ++ filter restricted_row entries)%list.
Proof.
  revert acc. induction entries as [|e entries IH]; intros acc Hall.
  - simpl. rewrite app_nil_r. reflexivity.
  - inversion Hall as [|? ? He Hrest]; subst.
    cbn [for_await_items filter]. unfold is_restricted at 1, restricted_row at 1.
    destruct (status e) as [s|]; [|contradiction He; reflexivity].
    rewrite bind_ret_l.
    destruct (toLocaleLowerCase s =? "restricted")%string.
    + rewrite bind_ret_l, IH by assumption. rewrite <- app_assoc. reflexivity.
    + rewrite bind_ret_l, IH by assumption. reflexivity.
Qed.

Lemma collect_undefined {locale : HostLocale} (entries acc : list DashSummaryEntry) :
  Exists (fun e => status e = None) entries ->
  for_await_items entries
    (fun entry restricted =>
       r <- is_restricted entry ;;
       if r then ret (restricted ++ [entry])%list else ret restricted)
    acc
  = throw (TypeError_undefined "toLocaleLowerCase").
Proof.
  revert acc. induction entries as [|e entries IH]; intros acc Hex.
  - inversion Hex.
  - cbn [for_await_items]. unfold is_restricted at 1.
    destruct (status e) as [s|] eqn:Hs.
    + rewrite bind_ret_l.
      assert (Hrest : Exists (fun e => status e = None) entries).
      { inversion Hex as [? ? H|? ? H]; subst; [congruence | assumption]. }
      destruct (toLocaleLowerCase s =? "restricted")%string;
        rewrite bind_ret_l; apply IH; assumption.
    + reflexivity.
Qed.

Lemma split_from_nonempty (sep : string) (s : string) (skip : nat) (cur : string) :
  Str.split_from sep skip cur s <> [].
Proof.
  revert skip cur. induction s as [|c s IH]; intros skip cur;
    cbn [Str.split_from].
  - discriminate.
  - destruct skip as [|k]; [|apply IH].
    destruct (prefix sep (String c s)); [discriminate | apply IH].
Qed.

Lemma field_count_positive (line : string) : (1 <= field_count line)%nat.
Proof.
  unfold field_count, Str.split.
  pose proof (split_from_nonempty ", " line O "") as H.
  destruct (Str.split_from ", " 0 "" line); [contradiction H; reflexivity|].
  simpl. lia.
Qed.

Lemma status_undefined (line : string) :
  status (parse_line line) = None <-> (field_count line < 3)%nat.
Proof.
  unfold parse_line, field_count. cbn [status].
  rewrite nth_error_None. lia.
Qed.

Lemma dependency_defined (line : string) : dependency (parse_line line) <> None.
Proof.
  unfold parse_line. cbn [dependency]. rewrite nth_error_None.
  pose proof (field_count_positive line). unfold field_count in *. lia.
Qed.

Lemma classifier_defined {locale : HostLocale} (summary : stream string) :
  failure summary = None ->
  Forall (fun line => status (parse_line line) <> None) (items summary) ->
  getRestrictedDependenciesFromSummary summary
  = ret (sort_by dependency_order
           (filter restricted_row (map parse_line (items summary)))).
Proof.
  intros Hfail Hall. unfold getRestrictedDependenciesFromSummary, for_await.
  cbn [readSummaryLines items failure]. rewrite collect_defined.
  - rewrite bind_ret_l, Hfail, bind_ret_l. cbn [app].
    apply Array_sort_pure. apply Forall_forall. intros e He.
    apply filter_In in He. destruct He as [He _]. apply in_map_iff in He.
    destruct He as [line [<- _]]. apply dependency_defined.
  - apply Forall_forall. intros e He. apply in_map_iff in He.
    destruct He as [line [<- Hline]].
    rewrite Forall_forall in Hall. apply Hall. assumption.
Qed.

Lemma classifier_undefined {locale : HostLocale} (summary : stream string) :
  Exists (fun line => status (parse_line line) = None) (items summary) ->
  getRestrictedDependenciesFromSummary summary
  = throw (TypeError_undefined "toLocaleLowerCase").
Proof.
  intros Hex. unfold getRestrictedDependenciesFromSummary, for_await.
  cbn [readSummaryLines items failure]. rewrite collect_undefined.
  - reflexivity.
  - apply Exists_exists in Hex. destruct Hex as [line [Hin Hs]].
    apply Exists_exists. exists (parse_line line). split; [|assumption].
    apply in_map. assumption.
Qed.

(** C2, as the code has it.  For every sequence of parsed summary entries
    that each have a status (the typedef's string field: lines of at least
    three fields) the classifier returns exactly the entries whose status,
    lower-cased by the host, is the string "restricted", in ascending
    order of dependency under the host's string comparison; entries that
    compare equal keep their order.  A status "Restricted" is kept and a
    status "approved" is not. *)
Theorem classifier_filters_and_sorts {locale : HostLocale}
  (summary : stream string) :
  consistent_comparator locale ->
  lowers_ascii locale ->
  failure summary = None ->
  Forall (fun line => status (parse_line line) <> None) (items summary) ->
  exists restricted,
    getRestrictedDependenciesFromSummary summary = ret restricted /\
    Permutation restricted
      (filter restricted_row (map parse_line (items summary))) /\
    (forall e, In e restricted <->
               In e (map parse_line (items summary)) /\
               exists s, status e = Some s /\
                         toLocaleLowerCase s = "restricted") /\
    StronglySorted dependency_le restricted /\
    (forall p,
        filter (fun e => (dependency_order e p <=? 0) && (dependency_order p e <=? 0))
          restricted
        = filter (fun e => (dependency_order e p <=? 0) && (dependency_order p e <=? 0))
            (filter restricted_row (map parse_line (items summary)))) /\
    (forall e, status e = Some "Restricted" -> is_restricted e = ret true) /\
    (forall e, status e = Some "approved" -> is_restricted e = ret false).
Proof.
  intros [Htotal Htrans] Hlower Hfail Hall.
  exists (sort_by dependency_order
            (filter restricted_row (map parse_line (items summary)))).
  split; [apply classifier_defined; assumption|].
  assert (Hperm : Permutation
            (sort_by dependency_order
               (filter restricted_row (map parse_line (items summary))))
            (filter restricted_row (map parse_line (items summary)))).
  { apply Permutation_sym, sort_by_perm. }
  split; [exact Hperm|]. split; [|split; [|split; [|split]]].
  - intros e. split.
    + intros He. apply (Permutation_in _ Hperm) in He.
      apply filter_In in He. destruct He as [Hin Hrow]. split; [assumption|].
      unfold restricted_row in Hrow. destruct (status e) as [s|]; [|discriminate].
      exists s. split; [reflexivity|]. apply String.eqb_eq. assumption.
    + intros [Hin [s [Hs Hlow]]].
      apply (Permutation_in _ (Permutation_sym Hperm)).
      apply filter_In. split; [assumption|].
      unfold restricted_row. rewrite Hs. apply String.eqb_eq. assumption.
  - apply (sort_by_sorted _ dependency_order).
    + intros a b. apply Htotal.
    + intros a b c. apply Htrans.
  - intros p. apply (sort_by_stable _ dependency_order).
    intros a b c. apply Htrans.
  - intros e Hs. unfold is_restricted. rewrite Hs.
    rewrite (Hlower "Restricted" eq_refl). reflexivity.
  - intros e Hs. unfold is_restricted. rewrite Hs.
    rewrite (Hlower "approved" eq_refl). reflexivity.
Qed.

(** C2 as stated fails on a sequence with an entry that has no status:
    of the two parsed entries the first alone has the status restricted,
    but the classifier does not return it; it throws. *)
Lemma classifier_throws_without_status :
  filter (restricted_row (locale := ascii_locale))
    (map parse_line ["A, lic, restricted, src"; "B, lic"])
  = [entry_A] /\
  status (parse_line "B, lic") = None /\
  getRestrictedDependenciesFromSummary (locale := ascii_locale)
    {| items := ["A, lic, restricted, src"; "B, lic"]; failure := None |}
  = throw (TypeError_undefined "toLocaleLowerCase") /\
  getRestrictedDependenciesFromSummary (locale := ascii_locale)
    {| items := ["A, lic, restricted, src"; "B, lic"]; failure := None |}
  <> ret [entry_A].
Proof.
  split; [reflexivity|]. split; [reflexivity|]. split; [reflexivity|].
  discriminate.
Qed.

Lemma ordinal_le (a b : string) :
  Str.ordinal a b <= 0 <-> a = b \/ String_as_OT.lt a b.
Proof.
  unfold Str.ordinal.
  destruct (String.compare a b) eqn:Hc.
  - apply String_as_OT.cmp_eq in Hc. split; [auto | lia].
  - apply String_as_OT.cmp_lt in Hc. split; [auto | lia].
  - split; [lia|]. intros [Heq|Hlt].
    + apply String_as_OT.cmp_eq in Heq. unfold String_as_OT.cmp in Heq. congruence.
    + apply String_as_OT.cmp_lt in Hlt. unfold String_as_OT.cmp in Hlt. congruence.
Qed.

Lemma ascii_locale_consistent : consistent_comparator ascii_locale.
Proof.
  split; cbn [localeCompare ascii_locale].
  - intros a b. unfold Str.ordinal.
    rewrite (String.compare_antisym a b).
    destruct (String.compare b a); simpl; lia.
  - intros a b c Hab Hbc. apply ordinal_le in Hab, Hbc. apply ordinal_le.
    destruct Hab as [->|Hab]; [assumption|].
    destruct Hbc as [<-|Hbc]; [right; assumption|].
    right. exact (String_as_OT.lt_trans _ _ _ Hab Hbc).
Qed.

Lemma ascii_locale_lowers : lowers_ascii ascii_locale.
Proof. intros s _. reflexivity. Qed.

Lemma classifier_filters_and_sorts_witness :
  consistent_comparator ascii_locale /\
  lowers_ascii ascii_locale /\
  Forall (fun line => status (parse_line line) <> None) sample_lines /\
  exists restricted,
    getRestrictedDependenciesFromSummary (locale := ascii_locale)
      {| items := sample_lines; failure := None |}
    = ret restricted /\
    restricted = [entry_A; entry_B] /\
    StronglySorted (dependency_le (locale := ascii_locale)) restricted.
Proof.
  assert (Hall : Forall (fun line => status (parse_line line) <> None) sample_lines).
  { repeat constructor; discriminate. }
  split; [exact ascii_locale_consistent|].
  split; [exact ascii_locale_lowers|].
  split; [exact Hall|].
  destruct (classifier_filters_and_sorts (locale := ascii_locale)
              {| items := sample_lines; failure := None |}
              ascii_locale_consistent ascii_locale_lowers eq_refl Hall)
    as [restricted [Hret [_ [_ [Hsorted _]]]]].
  exists restricted. split; [exact Hret|]. split; [|exact Hsorted].
  injection Hret as <-. reflexivity.
Defined.

(** ** The summary parser *)

Lemma append_assoc (a b c : string) : (a ++ b) ++ c = a ++ (b ++ c).
Proof. induction a as [|x a IH]; simpl; [|rewrite IH]; reflexivity. Qed.

Lemma append_nil_r (a : string) : a ++ "" = a.
Proof. induction a as [|x a IH]; simpl; [|rewrite IH]; reflexivity. Qed.

Lemma rev_append_app (cur s : string) :
  Str.rev_append cur s = Str.rev_append cur "" ++ s.
Proof.
  revert s. induction cur as [|c cur IH]; intros s; simpl.
  - reflexivity.
  - rewrite (IH (String c s)), (IH (String c "")), append_assoc. reflexivity.
Qed.

Lemma prefix_nil (s : string) : prefix "" s = true.
Proof. destruct s; reflexivity. Qed.

Lemma prefix_separator (s : string) :
  prefix ", " s = true <-> exists rest, s = String ","%char (String " "%char rest).
Proof.
  split.
  - destruct s as [|a [|b rest]]; cbn [prefix]; try discriminate.
    + destruct (ascii_dec ","%char a); discriminate.
    + destruct (ascii_dec ","%char a) as [<-|]; [|discriminate].
      destruct (ascii_dec " "%char b) as [<-|]; [|discriminate].
      intros _. exists rest. reflexivity.
  - intros [rest ->]. cbn [prefix].
    destruct (ascii_dec ","%char ","%char) as [_|Hn];
      [|contradiction Hn; reflexivity].
    destruct (ascii_dec " "%char " "%char) as [_|Hn];
      [|contradiction Hn; reflexivity].
    apply prefix_nil.
Qed.

Lemma join_cons (sep p : string) (rest : list string) :
  rest <> [] -> Str.join sep (p :: rest) = p ++ sep ++ Str.join sep rest.
Proof. destruct rest; [intros H; contradiction H|]; reflexivity. Qed.

Lemma join_split_from (n : nat) (s cur : string) :
  (String.length s <= n)%nat ->
  Str.join ", " (Str.split_from ", " 0 cur s) = Str.rev_append cur s.
Proof.
  revert s cur. induction n as [|n IH]; intros s cur Hlen.
  - destruct s; [reflexivity | simpl in Hlen; lia].
  - destruct s as [|c s]; [reflexivity|].
    cbn [Str.split_from].
    destruct (prefix ", " (String c s)) eqn:Hp.
    + apply prefix_separator in Hp. destruct Hp as [rest Heq].
      injection Heq as -> ->.
      change (Nat.pred (String.length ", ")) with 1%nat.
      cbn [Str.split_from].
      rewrite join_cons by apply split_from_nonempty.
      rewrite IH by (simpl in Hlen; lia).
      rewrite (rev_append_app cur (String ","%char (String " "%char rest))).
      reflexivity.
    + rewrite IH by (simpl in Hlen; lia). reflexivity.
Qed.

Lemma join_split (line : string) : Str.join ", " (Str.split ", " line) = line.
Proof. apply (join_split_from (String.length line)). lia. Qed.

Lemma contains_short (s : string) : Str.contains ", " (first_char s) = false.
Proof.
  destruct s as [|c s]; [reflexivity|].
  cbn [first_char Str.contains prefix orb].
  destruct (ascii_dec ","%char c); reflexivity.
Qed.

Lemma prefix_first_char (c : ascii) (s : string) :
  prefix ", " (String c (first_char s)) = prefix ", " (String c s).
Proof.
  destruct s as [|b s]; [reflexivity|]. cbn [first_char prefix].
  destruct (ascii_dec ","%char c); [|reflexivity].
  destruct (ascii_dec " "%char b); [|reflexivity].
  rewrite prefix_nil. reflexivity.
Qed.

Lemma contains_cons (sub : string) (c : ascii) (s : string) :
  Str.contains sub (String c s) = prefix sub (String c s) || Str.contains sub s.
Proof. reflexivity. Qed.

Lemma prefix_two (a : ascii) (t u v : string) :
  t <> "" -> prefix ", " (String a (t ++ u)) = prefix ", " (String a (t ++ v)).
Proof.
  intros Ht. destruct t as [|b t]; [contradiction Ht; reflexivity|].
  cbn [append prefix].
  destruct (ascii_dec ","%char a); [|reflexivity].
  destruct (ascii_dec " "%char b); [|reflexivity].
  rewrite !prefix_nil. reflexivity.
Qed.

Lemma contains_extend (t : string) (c : ascii) (s : string) :
  Str.contains ", " (t ++ String c "") = false ->
  prefix ", " (String c s) = false ->
  Str.contains ", " (t ++ String c (first_char s)) = false.
Proof.
  induction t as [|a t IH]; intros Hno Hp.
  - cbn [append]. rewrite contains_cons, prefix_first_char, Hp.
    apply contains_short.
  - cbn [append] in *. rewrite contains_cons in *.
    apply orb_false_iff in Hno. destruct Hno as [Hpa Hrest].
    rewrite (IH Hrest Hp), orb_false_r.
    transitivity (prefix ", " (String a (t ++ String c ""))); [|exact Hpa].
    assert (Hne : t ++ String c "" <> "") by (destruct t; discriminate).
    pose proof (prefix_two a (t ++ String c "") (first_char s) "" Hne) as E.
    rewrite append_nil_r, append_assoc in E. exact E.
Qed.

Lemma contains_app_false (t u : string) :
  Str.contains ", " (t ++ u) = false -> Str.contains ", " t = false.
Proof.
  induction t as [|a t IH]; intros H.
  - reflexivity.
  - cbn [append] in H. rewrite contains_cons in *.
    apply orb_false_iff in H. destruct H as [Hp Hrest].
    rewrite (IH Hrest), orb_false_r.
    destruct (prefix ", " (String a t)) eqn:Hpt; [|reflexivity].
    apply prefix_separator in Hpt. destruct Hpt as [rest Heq].
    injection Heq as -> ->. cbn [append] in Hp.
    assert (Hyes : prefix ", " (String ","%char (String " "%char (rest ++ u))) = true)
      by (apply prefix_separator; eexists; reflexivity).
    congruence.
Qed.

Lemma pieces_split_from (n : nat) (s cur : string) :
  (String.length s <= n)%nat ->
  Str.contains ", " (Str.rev_append cur "" ++ first_char s) = false ->
  Forall (fun piece => Str.contains ", " piece = false)
         (Str.split_from ", " 0 cur s).
Proof.
  revert s cur. induction n as [|n IH]; intros s cur Hlen Hinv.
  - destruct s; [|simpl in Hlen; lia]. cbn [Str.split_from].
    constructor; [|constructor]. apply (contains_app_false _ _ Hinv).
  - destruct s as [|c s].
    + cbn [Str.split_from]. constructor; [|constructor].
      apply (contains_app_false _ _ Hinv).
    + cbn [Str.split_from]. cbn [first_char] in Hinv.
      destruct (prefix ", " (String c s)) eqn:Hp.
      * constructor; [apply (contains_app_false _ _ Hinv)|].
        apply prefix_separator in Hp. destruct Hp as [rest Heq].
        injection Heq as -> ->.
        change (Nat.pred (String.length ", ")) with 1%nat.
        cbn [Str.split_from].
        apply IH; [simpl in Hlen; lia|]. apply contains_short.
      * apply IH; [simpl in Hlen; lia|].
        cbn [Str.rev_append]. rewrite rev_append_app, append_assoc.
        apply contains_extend; assumption.
Qed.

Lemma pieces_split (line : string) :
  Forall (fun piece => Str.contains ", " piece = false) (Str.split ", " line).
Proof.
  apply (pieces_split_from (String.length line)); [lia|].
  apply contains_short.
Qed.

Lemma status_defined (line : string) :
  status (parse_line line) <> None <-> (3 <= field_count line)%nat.
Proof. rewrite status_undefined. lia. Qed.

(** C5, as the code has it.  The parser cuts every line at each ", " and
    takes the first four pieces as dependency, license, status and source;
    it never fails, the dependency is always a string, and a line with
    fewer than four fields leaves exactly the missing trailing fields
    [undefined].  The classifier accepts a line without a source, but not
    one without a status: when every line has at least three fields it
    returns, and when some line has fewer it throws a [TypeError], which
    ends the run with exit code 1. *)
Theorem parse_line_and_classifier {locale : HostLocale} (line : string)
  (summary : stream string) :
  failure summary = None ->
  Str.join ", " (Str.split ", " line) = line /\
  Forall (fun piece => Str.contains ", " piece = false) (Str.split ", " line) /\
  parse_line line
  = {| dependency := nth_error (Str.split ", " line) 0;
       license := nth_error (Str.split ", " line) 1;
       status := nth_error (Str.split ", " line) 2;
       source := nth_error (Str.split ", " line) 3 |} /\
  dependency (parse_line line) <> None /\
  (license (parse_line line) = None <-> (field_count line < 2)%nat) /\
  (status (parse_line line) = None <-> (field_count line < 3)%nat) /\
  (source (parse_line line) = None <-> (field_count line < 4)%nat) /\
  (Forall (fun l => (3 <= field_count l)%nat) (items summary) ->
   exists restricted,
     getRestrictedDependenciesFromSummary summary = ret restricted) /\
  (Exists (fun l => (field_count l < 3)%nat) (items summary) ->
   getRestrictedDependenciesFromSummary summary
   = throw (TypeError_undefined "toLocaleLowerCase") /\
   forall g w, reaches_check g w -> summary_file w = summary ->
               exit_code g w = 1).
Proof.
  intros Hfail.
  split; [apply join_split|]. split; [apply pieces_split|].
  split; [reflexivity|]. split; [apply dependency_defined|].
  split; [|split; [apply status_undefined | split; [|split]]].
  - unfold parse_line, field_count. cbn [license]. rewrite nth_error_None. lia.
  - unfold parse_line, field_count. cbn [source]. rewrite nth_error_None. lia.
  - intros Hall. eexists. apply classifier_defined; [assumption|].
    apply Forall_forall. intros l Hl. apply status_defined.
    rewrite Forall_forall in Hall. apply Hall. assumption.
  - intros Hex.
    assert (Hthrow : getRestrictedDependenciesFromSummary summary
                     = throw (TypeError_undefined "toLocaleLowerCase")).
    { apply classifier_undefined. apply Exists_exists in Hex.
      destruct Hex as [l [Hin Hl]]. apply Exists_exists. exists l.
      split; [assumption|]. apply status_undefined. assumption. }
    split; [exact Hthrow|]. intros g w Hreach Hw.
    rewrite (exit_code_reached g w Hreach). unfold check.
    rewrite Hw, Hthrow. reflexivity.
Qed.

Lemma parse_line_and_classifier_witness :
  failure {| items := ["A, MIT, restricted"; "B, EPL-2.0, approved, clearlydefined"];
             failure := None |} = None /\
  source (parse_line "A, MIT, restricted") = None /\
  getRestrictedDependenciesFromSummary (locale := ascii_locale)
    {| items := ["A, MIT, restricted"; "B, EPL-2.0, approved, clearlydefined"];
       failure := None |}
  = ret [{| dependency := Some "A"; license := Some "MIT";
            status := Some "restricted"; source := None |}].
Proof.
  split; [reflexivity|].
  destruct (parse_line_and_classifier (locale := ascii_locale)
              "A, MIT, restricted"
              {| items := ["A, MIT, restricted"; "B, EPL-2.0, approved, clearlydefined"];
                 failure := None |} eq_refl)
    as [_ [_ [_ [_ [_ [_ [Hsource _]]]]]]].
  split.
  - apply Hsource. vm_compute. lia.
  - reflexivity.
Defined.

(** C5 as stated fails: the line [foo] has one field, so its status is
    [undefined]; the classifier, the consumer of the parsed sequence,
    throws on it and the run ends with exit code 1. *)
Lemma short_line_is_not_tolerated :
  (field_count "foo" < 4)%nat /\
  status (parse_line "foo") = None /\
  getRestrictedDependenciesFromSummary (locale := ascii_locale)
    {| items := ["foo"]; failure := None |}
  = throw (TypeError_undefined "toLocaleLowerCase") /\
  program (locale := ascii_locale) sample_globals
    (sample_world child_ok ["foo"] false (inr RootNull))
  = ([console_warn "INFO: Running dash-licenses...";
      console_error_value (TypeError_undefined "toLocaleLowerCase")], 1).
Proof.
  split; [vm_compute; lia|]. split; [reflexivity|]. split; reflexivity.
Qed.

(** ** Runs without restricted rows *)

(** C3, as the code has it.  When the run gets as far as the summary, the
    summary can be read, every line of it has at least three fields and no
    row has the status restricted, the run exits with code 0 whether or
    not a baseline file exists and whatever it holds. *)
Theorem no_restricted_rows_exit_0 {locale : HostLocale} (g : globals)
  (w : world) (present : bool) (file : js_error + baseline_json) :
  reaches_check g w ->
  failure (summary_file w) = None ->
  Forall (fun line => (3 <= field_count line)%nat) (items (summary_file w)) ->
  filter restricted_row (map parse_line (items (summary_file w))) = [] ->
  exit_code g (with_baseline w present file) = 0 /\
  program g (with_baseline w present file)
  = ((printed (fetch g w ;; backup g w ;; scan g w)
      ++ [console_warn (cyan g "INFO: Done.")])%list, 0).
Proof.
  intros Hreach Hfail Hall Hnone.
  assert (Hcls : getRestrictedDependenciesFromSummary
                   (summary_file (with_baseline w present file)) = ret []).
  { cbn [with_baseline summary_file].
    rewrite classifier_defined; [rewrite Hnone; reflexivity | assumption |].
    apply Forall_forall. intros l Hl. apply status_defined.
    rewrite Forall_forall in Hall. apply Hall. assumption. }
  assert (Hreach' : reaches_check g (with_baseline w present file)) by exact Hreach.
  split.
  - rewrite (exit_code_reached g _ Hreach').
    rewrite (check_classified g _ [] Hcls). reflexivity.
  - rewrite (program_reached g _ Hreach').
    rewrite (check_classified g _ [] Hcls). reflexivity.
Qed.

Lemma no_restricted_rows_exit_0_witness :
  reaches_check (locale := ascii_locale) sample_globals
    (sample_world child_exit_1 ["C, lic, approved, src"; "D, MIT, rejected"]
       false (inr RootNull)) /\
  program (locale := ascii_locale) sample_globals
    (with_baseline
       (sample_world child_exit_1 ["C, lic, approved, src"; "D, MIT, rejected"]
          false (inr RootNull))
       true (inr (RootString "not a baseline")))
  = ([console_warn "INFO: Running dash-licenses...";
      console_warn ("WARN: Command " ++
        prettyCommand
          {| Status.error := None; Status.signal := None;
             Status.status := Some 1; Status.bin := "java";
             Status.args :=
               ["-jar"; dashLicensesJar sample_globals; "yarn.lock"; "-batch";
                "50"; "-timeout"; "240"; "-summary";
                dashLicensesSummary sample_globals];
             Status.opts := {| stdio := None |} |} 2
        ++ " exited with code: 1");
      console_warn "INFO: Done."], 0).
Proof.
  assert (Hall : Forall (fun line => (3 <= field_count line)%nat)
                   ["C, lic, approved, src"; "D, MIT, rejected"]).
  { apply Forall_cons; [vm_compute; lia|].
    apply Forall_cons; [vm_compute; lia|]. apply Forall_nil. }
  split; [reflexivity|].
  exact (proj2 (no_restricted_rows_exit_0 (locale := ascii_locale) sample_globals
           (sample_world child_exit_1 ["C, lic, approved, src"; "D, MIT, rejected"]
              false (inr RootNull))
           true (inr (RootString "not a baseline"))
           eq_refl eq_refl Hall eq_refl)).
Defined.

(** C3 as stated fails: a summary whose second line is empty has no
    restricted row, and the run exits with code 1. *)
Lemma blank_line_exits_1 :
  filter (restricted_row (locale := ascii_locale))
    (map parse_line ["A, MIT, approved, clearlydefined"; ""]) = [] /\
  reaches_check (locale := ascii_locale) sample_globals
    (sample_world child_ok ["A, MIT, approved, clearlydefined"; ""]
       false (inr RootNull)) /\
  exit_code (locale := ascii_locale) sample_globals
    (sample_world child_ok ["A, MIT, approved, clearlydefined"; ""]
       false (inr RootNull)) = 1.
Proof. split; [reflexivity|]. split; reflexivity. Qed.

(** ** The reconciliation step and the objects it touches *)

Lemma heap_read_lt (h : heap) (l : nat) (o : jsobject) :
  heap_read h l = Some o -> (l < List.length h)%nat.
Proof. intros H. apply nth_error_Some. unfold heap_read in H. congruence. Qed.

Lemma heap_write_length (h : heap) (l : nat) (o : jsobject) :
  List.length (heap_write h l o) = List.length h.
Proof.
  revert l. induction h as [|x h IH]; intros [|l]; simpl; try reflexivity.
  rewrite IH. reflexivity.
Qed.

Lemma heap_read_write_same (h : heap) (l : nat) (o : jsobject) :
  (l < List.length h)%nat -> heap_read (heap_write h l o) l = Some o.
Proof.
  revert l. induction h as [|x h IH]; intros [|l] Hl; simpl in *; try lia.
  - reflexivity.
  - apply IH. lia.
Qed.

Lemma heap_read_write_other (h : heap) (l l' : nat) (o : jsobject) :
  l <> l' -> heap_read (heap_write h l o) l' = heap_read h l'.
Proof.
  revert l l'. induction h as [|x h IH]; intros [|l] [|l'] Hne; simpl;
    try reflexivity.
  - contradiction Hne. reflexivity.
  - apply IH. congruence.
Qed.

Lemma heap_read_new_old (h : heap) (o x : jsobject) (l : nat) :
  heap_read h l = Some x -> heap_read (h ++ [o])%list l = Some x.
Proof.
  intros H. unfold heap_read in *. rewrite nth_error_app1; [assumption|].
  apply nth_error_Some. congruence.
Qed.

Lemma heap_read_new (h : heap) (o : jsobject) :
  heap_read (h ++ [o])%list (List.length h) = Some o.
Proof.
  unfold heap_read. rewrite nth_error_app2 by lia.
  rewrite Nat.sub_diag. reflexivity.
Qed.

Lemma skipn_nth_error {A : Type} (l : list A) (k : nat) (x : A) :
  nth_error l k = Some x -> skipn k l = x :: skipn (S k) l.
Proof.
  revert k. induction l as [|y l IH]; intros [|k] H; simpl in *; try discriminate.
  - injection H as ->. reflexivity.
  - apply IH. assumption.
Qed.

Section HeapLoop.

Variable restricted : list DashSummaryEntry.
Variable baseline : JsMap.t.
Variables lr lb lu la : nat.
Hypothesis lr_lu : lr <> lu.
Hypothesis lr_la : lr <> la.
Hypothesis lb_lu : lb <> lu.
Hypothesis lb_la : lb <> la.
Hypothesis lu_la : lu <> la.

Lemma filter_heap_run (n k : nat) (h : heap) (s : JsSet.t)
  (kept : list DashSummaryEntry) :
  (k + n = List.length restricted)%nat ->
  heap_read h lr = Some (ObjArray restricted) ->
  heap_read h lb = Some (ObjMap baseline) ->
  heap_read h lu = Some (ObjSet s) ->
  heap_read h la = Some (ObjArray kept) ->
  exists h',
    filter_heap (callback_heap lb lu) lr la k n h = Some h' /\
    List.length h' = List.length h /\
    (forall l, l <> lu -> l <> la -> heap_read h' l = heap_read h l) /\
    heap_read h' lu
    = Some (ObjSet (fold_left JsSet.delete (map dependency (skipn k restricted)) s)) /\
    heap_read h' la
    = Some (ObjArray
              (kept ++ filter (fun e => negb (JsMap.has baseline (dependency e)))
                         (skipn k restricted))%list).
Proof.
  revert k h s kept. induction n as [|n IH]; intros k h s kept Hk Hr Hb Hu Ha.
  - exists h. rewrite skipn_all2 by lia. simpl. rewrite app_nil_r.
    repeat split; auto.
  - cbn [filter_heap]. rewrite Hr.
    destruct (nth_error restricted k) as [x|] eqn:Hx;
      [|apply nth_error_None in Hx; lia].
    rewrite (skipn_nth_error restricted k x Hx).
    unfold callback_heap. rewrite Hu.
    set (s' := JsSet.delete s (dependency x)).
    set (h1 := heap_write h lu (ObjSet s')).
    assert (Hu1 : heap_read h1 lu = Some (ObjSet s'))
      by (apply heap_read_write_same; apply (heap_read_lt h lu _ Hu)).
    assert (Hr1 : heap_read h1 lr = Some (ObjArray restricted))
      by (unfold h1; rewrite heap_read_write_other by congruence; exact Hr).
    assert (Hb1 : heap_read h1 lb = Some (ObjMap baseline))
      by (unfold h1; rewrite heap_read_write_other by congruence; exact Hb).
    assert (Ha1 : heap_read h1 la = Some (ObjArray kept))
      by (unfold h1; rewrite heap_read_write_other by congruence; exact Ha).
    assert (Hl1 : List.length h1 = List.length h) by apply heap_write_length.
    rewrite Hb1. cbn [map fold_left filter].
    destruct (JsMap.has baseline (dependency x)); cbn [negb].
    + destruct (IH (S k) h1 s' kept ltac:(lia) Hr1 Hb1 Hu1 Ha1)
        as [h' [Hrun [Hlen [Hframe [Hset Harr]]]]].
      exists h'. split; [exact Hrun|]. split; [congruence|].
      split; [|split; assumption].
      intros l Hlu Hla. rewrite (Hframe l Hlu Hla). unfold h1.
      apply heap_read_write_other. congruence.
    + rewrite Ha1.
      set (h2 := heap_write h1 la (ObjArray (kept ++ [x])%list)).
      assert (Ha2 : heap_read h2 la = Some (ObjArray (kept ++ [x])%list))
        by (apply heap_read_write_same; apply (heap_read_lt h1 la _ Ha1)).
      assert (Hr2 : heap_read h2 lr = Some (ObjArray restricted))
        by (unfold h2; rewrite heap_read_write_other by congruence; exact Hr1).
      assert (Hb2 : heap_read h2 lb = Some (ObjMap baseline))
        by (unfold h2; rewrite heap_read_write_other by congruence; exact Hb1).
      assert (Hu2 : heap_read h2 lu = Some (ObjSet s'))
        by (unfold h2; rewrite heap_read_write_other by congruence; exact Hu1).
      destruct (IH (S k) h2 s' (kept ++ [x])%list ltac:(lia) Hr2 Hb2 Hu2 Ha2)
        as [h' [Hrun [Hlen [Hframe [Hset Harr]]]]].
      exists h'. split; [exact Hrun|].
      split; [unfold h2 in Hlen; rewrite heap_write_length in Hlen; congruence|].
      split; [|split; [exact Hset|]].
      * intros l Hlu Hla. rewrite (Hframe l Hlu Hla). unfold h2, h1.
        rewrite !heap_read_write_other by congruence. reflexivity.
      * rewrite Harr, <- app_assoc. reflexivity.
Qed.

End HeapLoop.

Lemma reconcile_heap_run (h : heap) (lr lb : nat)
  (restricted : list DashSummaryEntry) (baseline : JsMap.t) :
  heap_read h lr = Some (ObjArray restricted) ->
  heap_read h lb = Some (ObjMap baseline) ->
  exists h',
    reconcile_heap lr lb h = Some (S (List.length h), List.length h, h') /\
    List.length h' = S (S (List.length h)) /\
    (forall l o, heap_read h l = Some o -> heap_read h' l = Some o) /\
    heap_read h' (S (List.length h))
    = Some (ObjArray (filter (fun e => negb (JsMap.has baseline (dependency e)))
                        restricted)) /\
    heap_read h' (List.length h)
    = Some (ObjSet (filter (fun k => negb (mentions restricted k))
                      (JsSet.new (JsMap.keys baseline)))).
Proof.
  intros Hr Hb.
  pose proof (heap_read_lt h lr _ Hr) as Hlr.
  pose proof (heap_read_lt h lb _ Hb) as Hlb.
  set (s0 := JsSet.new (JsMap.keys baseline)).
  set (h1 := (h ++ [ObjSet s0])%list).
  set (h2 := (h1 ++ [ObjArray []])%list).
  assert (Hlen1 : List.length h1 = S (List.length h))
    by (unfold h1; rewrite length_app; simpl; lia).
  assert (Hr2 : heap_read h2 lr = Some (ObjArray restricted))
    by (apply heap_read_new_old, heap_read_new_old; exact Hr).
  assert (Hb2 : heap_read h2 lb = Some (ObjMap baseline))
    by (apply heap_read_new_old, heap_read_new_old; exact Hb).
  assert (Hu2 : heap_read h2 (List.length h) = Some (ObjSet s0))
    by (apply heap_read_new_old, heap_read_new).
  assert (Ha2 : heap_read h2 (S (List.length h)) = Some (ObjArray [])).
  { unfold h2. rewrite <- Hlen1. apply heap_read_new. }
  destruct (filter_heap_run restricted baseline lr lb (List.length h)
              (S (List.length h)) ltac:(lia) ltac:(lia) ltac:(lia) ltac:(lia)
              ltac:(lia) (List.length restricted) 0 h2 s0 [] eq_refl
              Hr2 Hb2 Hu2 Ha2)
    as [h' [Hrun [Hlen [Hframe [Hset Harr]]]]].
  exists h'. split.
  - unfold reconcile_heap. rewrite Hb. unfold heap_new.
    unfold Array_filter_heap.
    rewrite (heap_read_new_old h (ObjSet (JsSet.new (JsMap.keys baseline))) _ lr Hr).
    unfold heap_new. fold s0. fold h1. rewrite Hlen1. fold h2.
    rewrite Hrun. reflexivity.
  - split.
    + rewrite Hlen. unfold h2. rewrite length_app, Hlen1. simpl. lia.
    + split; [|split].
      * intros l o Hl. pose proof (heap_read_lt h l _ Hl) as Hlt.
        rewrite Hframe by lia. apply heap_read_new_old, heap_read_new_old.
        exact Hl.
      * rewrite Harr. reflexivity.
      * rewrite Hset. cbn [skipn]. rewrite set_delete_all. reflexivity.
Qed.

Lemma reconcile_unmatched (restricted : list DashSummaryEntry) (baseline : JsMap.t) :
  unmatched_set (snd (reconcile restricted baseline))
  = filter (fun k => negb (mentions restricted k)) (JsSet.new (JsMap.keys baseline)).
Proof.
  unfold reconcile. cbn [restricted_array].
  rewrite Array_filter_unhandled. cbn [snd unmatched_set].
  apply set_delete_all.
Qed.

(** C8. The reconciliation step changes no object it was given.  Run on a
    heap that holds the array [restricted] and the [Map] [baseline], it
    creates two objects, the [Set] [unmatched] and the array [unhandled],
    and leaves every object of the heap, the two inputs among them, as it
    was: [delete] only ever reaches the new [Set].  The two results hold
    the baseline keys that are the dependency of no restricted entry and
    the restricted entries whose dependency is no baseline key; they
    depend on the contents of the two inputs alone, so running the step a
    second time, on the heap the first run left, creates two further
    objects with the same contents and changes nothing else. *)
Theorem reconcile_heap_is_pure (h : heap) (lr lb : nat)
  (restricted : list DashSummaryEntry) (baseline : JsMap.t) :
  heap_read h lr = Some (ObjArray restricted) ->
  heap_read h lb = Some (ObjMap baseline) ->
  exists h' h'',
    reconcile_heap lr lb h = Some (S (List.length h), List.length h, h') /\
    List.length h' = S (S (List.length h)) /\
    (forall l o, heap_read h l = Some o -> heap_read h' l = Some o) /\
    heap_read h' (S (List.length h))
    = Some (ObjArray (filter (fun e => negb (JsMap.has baseline (dependency e)))
                        restricted)) /\
    heap_read h' (List.length h)
    = Some (ObjSet (filter (fun k => negb (mentions restricted k))
                      (JsSet.new (JsMap.keys baseline)))) /\
    heap_read h' (S (List.length h))
    = Some (ObjArray (fst (reconcile restricted baseline))) /\
    heap_read h' (List.length h)
    = Some (ObjSet (unmatched_set (snd (reconcile restricted baseline)))) /\
    reconcile_heap lr lb h' = Some (S (List.length h'), List.length h', h'') /\
    List.length h'' = S (S (List.length h')) /\
    (forall l o, heap_read h' l = Some o -> heap_read h'' l = Some o) /\
    heap_read h'' (S (List.length h')) = heap_read h' (S (List.length h)) /\
    heap_read h'' (List.length h') = heap_read h' (List.length h).
Proof.
  intros Hr Hb.
  destruct (reconcile_heap_run h lr lb restricted baseline Hr Hb)
    as [h' [Hrun [Hlen [Hframe [Harr Hset]]]]].
  destruct (reconcile_heap_run h' lr lb restricted baseline
              (Hframe _ _ Hr) (Hframe _ _ Hb))
    as [h'' [Hrun' [Hlen' [Hframe' [Harr' Hset']]]]].
  exists h', h''.
  split; [exact Hrun|]. split; [exact Hlen|]. split; [exact Hframe|].
  split; [exact Harr|]. split; [exact Hset|].
  split; [rewrite reconcile_unhandled; exact Harr|].
  split; [rewrite reconcile_unmatched; exact Hset|].
  split; [exact Hrun'|]. split; [exact Hlen'|]. split; [exact Hframe'|].
  split; [rewrite Harr', Harr; reflexivity | rewrite Hset', Hset; reflexivity].
Qed.

Lemma reconcile_heap_is_pure_witness :
  heap_read [ObjArray [entry_A; entry_B]; ObjMap [("A", JNull); ("Z", JStr "note")]] 0
  = Some (ObjArray [entry_A; entry_B]) /\
  heap_read [ObjArray [entry_A; entry_B]; ObjMap [("A", JNull); ("Z", JStr "note")]] 1
  = Some (ObjMap [("A", JNull); ("Z", JStr "note")]) /\
  exists h',
    reconcile_heap 0 1
      [ObjArray [entry_A; entry_B]; ObjMap [("A", JNull); ("Z", JStr "note")]]
    = Some (3%nat, 2%nat, h') /\
    heap_read h' 0 = Some (ObjArray [entry_A; entry_B]) /\
    heap_read h' 1 = Some (ObjMap [("A", JNull); ("Z", JStr "note")]) /\
    heap_read h' 2 = Some (ObjSet ["Z"]) /\
    heap_read h' 3 = Some (ObjArray [entry_B]).
Proof.
  split; [reflexivity|]. split; [reflexivity|].
  destruct (reconcile_heap_is_pure
              [ObjArray [entry_A; entry_B]; ObjMap [("A", JNull); ("Z", JStr "note")]]
              0 1 [entry_A; entry_B] [("A", JNull); ("Z", JStr "note")]
              eq_refl eq_refl)
    as [h' [h'' [Hrun [_ [Hframe [Harr [Hset _]]]]]]].
  exists h'. split; [exact Hrun|].
  split; [exact (Hframe 0%nat _ eq_refl)|].
  split; [exact (Hframe 1%nat _ eq_refl)|].
  split; [exact Hset | exact Harr].
Defined.

(** ** A scanner that fails *)

Lemma printed_prelude (g : globals) (w : world) :
  outcome (fetch g w) = Normal tt -> outcome (backup g w) = Normal tt ->
  printed (fetch g w ;; backup g w ;; scan g w)
  = (printed (fetch g w) ++ printed (backup g w) ++ printed (scan g w))%list.
Proof.
  intros Hf Hb. rewrite printed_bind, Hf, printed_bind, Hb. reflexivity.
Qed.

(** C7. A scanner process that started and then ended on a signal or with
    a non-zero exit code costs one warning, with the message of
    [getErrorFromStatus]: the scanner step completes normally and, when the
    earlier steps did too, the run goes on to read the summary and ends as
    the summary decides: with the error and exit code 1 when reading or
    classifying the summary throws, with [INFO: Done.] and exit code 0
    when no row is restricted, with the findings and exit code 1 when rows
    are restricted and there is no baseline, and with the outcome of the
    baseline check when there is one.  The download process in the same
    situation ends the run with an error line and exit code 1, before any
    summary is read. *)
Theorem scanner_failure_is_a_warning {locale : HostLocale} (g : globals)
  (w : world) (child : child_result) :
  child_error child = None -> failed child ->
  (java w = child ->
   exists message,
     getErrorFromStatus
       {| Status.error := None;
          Status.signal := child_signal child;
          Status.status := child_status child;
          Status.bin := "java";
          Status.args :=
            ["-jar"; dashLicensesJar g; "yarn.lock"; "-batch"; "50";
             "-timeout"; "240"; "-summary"; dashLicensesSummary g];
          Status.opts :=
            {| stdio := Some (StdioEach ["ignore"; "ignore"; "inherit"]) |} |}
     = Some message /\
     scan g w
     = ([console_warn (cyan g "INFO: Running dash-licenses...");
         console_warn (yellow g ("WARN: " ++ message))],
        Normal tt) /\
     (outcome (fetch g w) = Normal tt -> outcome (backup g w) = Normal tt ->
      (forall e,
          getRestrictedDependenciesFromSummary (summary_file w) = throw e ->
          program g w
          = ((printed (fetch g w) ++ printed (backup g w)
              ++ [console_warn (cyan g "INFO: Running dash-licenses...");
                  console_warn (yellow g ("WARN: " ++ message));
                  console_error_value e])%list,
             1)) /\
      (getRestrictedDependenciesFromSummary (summary_file w) = ret [] ->
       program g w
       = ((printed (fetch g w) ++ printed (backup g w)
           ++ [console_warn (cyan g "INFO: Running dash-licenses...");
               console_warn (yellow g ("WARN: " ++ message));
               console_warn (cyan g "INFO: Done.")])%list,
          0)) /\
      (forall restricted,
          restricted <> [] ->
          getRestrictedDependenciesFromSummary (summary_file w) = ret restricted ->
          baseline_exists w = false ->
          program g w
          = ((printed (fetch g w) ++ printed (backup g w)
              ++ [console_warn (cyan g "INFO: Running dash-licenses...");
                  console_warn (yellow g ("WARN: " ++ message));
                  console_error (red g "ERROR: Found unhandled restricted dependencies!")]
              ++ map (finding_line g) restricted)%list,
             1)) /\
      (forall restricted baseline,
          restricted <> [] ->
          getRestrictedDependenciesFromSummary (summary_file w) = ret restricted ->
          baseline_exists w = true ->
          readBaseline g (baseline_file w) = ret baseline ->
          program g w
          = ((printed (fetch g w) ++ printed (backup g w)
              ++ [console_warn (cyan g "INFO: Running dash-licenses...");
                  console_warn (yellow g ("WARN: " ++ message));
                  console_warn (cyan g "INFO: Checking results against the baseline...")]
              ++ printed (report_unmatched g (snd (reconcile restricted baseline)))
              ++ match fst (reconcile restricted baseline) with
                 | [] => [console_warn (cyan g "INFO: Done.")]
                 | _ :: _ =>
                     console_error (red g "ERROR: Found results that aren't part of the baseline!")
                     :: map (finding_line g) (fst (reconcile restricted baseline))
                 end)%list,
             match fst (reconcile restricted baseline) with
             | [] => 0
             | _ :: _ => 1
             end)))) /\
  (curl w = child -> jar_exists w = false -> mkdir_error w = None ->
   exists message,
     getErrorFromStatus
       {| Status.error := None;
          Status.signal := child_signal child;
          Status.status := child_status child;
          Status.bin := "curl";
          Status.args := ["-L"; dashLicensesUrl; "-o"; dashLicensesJar g];
          Status.opts := {| stdio := Some (StdioAll "inherit") |} |}
     = Some message /\
     program g w
     = ([console_warn (cyan g "INFO: Fetching dash-licenses...");
         console_error (red g ("ERROR: " ++ message))],
        1)).
Proof.
  intros Herr Hfailed. split.
  - intros Hjava. subst child.
    match goal with
    | |- exists message, getErrorFromStatus ?s = Some message /\ _ =>
        destruct (getErrorFromStatus_failed s Hfailed) as [message [Hmsg Hyes]]
    end.
    exists message. split; [exact Hmsg|].
    assert (Hscan : scan g w
              = ([console_warn (cyan g "INFO: Running dash-licenses...");
                  console_warn (yellow g ("WARN: " ++ message))], Normal tt)).
    { unfold scan, spawn. cbn [stdio Status.error]. rewrite Herr.
      rewrite bind_ret_l, Hmsg, Hyes. reflexivity. }
    split; [exact Hscan|]. intros Hfetch Hbackup.
    assert (Hreach : reaches_check g w).
    { unfold reaches_check. rewrite !outcome_bind, Hfetch, Hbackup, Hscan.
      reflexivity. }
    pose proof (program_reached g w Hreach) as Hprog.
    rewrite (printed_prelude g w Hfetch Hbackup), Hscan in Hprog.
    unfold printed at 3 in Hprog. cbn [fst] in Hprog.
    split; [|split; [|split]].
    + intros e Hthrow. rewrite Hprog. unfold check. rewrite Hthrow.
      cbn [bind throw settle fst snd app].
      rewrite <- !app_assoc. reflexivity.
    + intros Hnone. rewrite Hprog, (check_classified g w _ Hnone).
      cbn [settle fst snd]. rewrite <- !app_assoc. reflexivity.
    + intros restricted Hne Hret Hex.
      rewrite Hprog, (check_classified g w _ Hret), Hex.
      destruct restricted as [|r rest]; [contradiction Hne; reflexivity|].
      cbn [settle fst snd]. rewrite <- !app_assoc. reflexivity.
    + intros restricted baseline Hne Hret Hex Hread.
      rewrite Hprog, (check_classified g w _ Hret), Hex.
      destruct restricted as [|r rest]; [contradiction Hne; reflexivity|].
      rewrite (check_baseline_result g (r :: rest) _ _ Hread).
      destruct (fst (reconcile (r :: rest) baseline)) as [|u us].
      * cbn [bind info emit process_exit settle fst snd].
        rewrite <- !app_assoc. cbn [app]. rewrite <- !app_assoc. reflexivity.
      * cbn [bind settle fst snd]. rewrite <- !app_assoc. reflexivity.
  - intros Hcurl Hjar Hmk. subst child.
    match goal with
    | |- exists message, getErrorFromStatus ?s = Some message /\ _ =>
        destruct (getErrorFromStatus_failed s Hfailed) as [message [Hmsg Hyes]]
    end.
    exists message. split; [exact Hmsg|].
    unfold program, main, fetch, spawn. rewrite Hjar, Hmk.
    cbn [negb stdio Status.error]. rewrite Herr, !bind_ret_l, Hmsg, Hyes.
    reflexivity.
Qed.

Lemma scanner_failure_is_a_warning_witness :
  child_error child_exit_1 = None /\ failed child_exit_1 /\
  program (locale := ascii_locale) sample_globals
    (sample_world child_exit_1 sample_lines false (inr RootNull))
  = ([console_warn "INFO: Running dash-licenses...";
      console_warn
        ("WARN: Command "
         ++ prettyCommand
              {| Status.error := None; Status.signal := None;
                 Status.status := Some 1; Status.bin := "java";
                 Status.args :=
                   ["-jar"; dashLicensesJar sample_globals; "yarn.lock";
                    "-batch"; "50"; "-timeout"; "240"; "-summary";
                    dashLicensesSummary sample_globals];
                 Status.opts :=
                   {| stdio := Some (StdioEach ["ignore"; "ignore"; "inherit"]) |} |} 2
         ++ " exited with code: 1");
      console_error "ERROR: Found unhandled restricted dependencies!";
      console_log "X A, lic"; console_log "X B, lic"], 1) /\
  (exists message,
      program (locale := ascii_locale) sample_globals
        (sample_download child_exit_1)
      = ([console_warn "INFO: Fetching dash-licenses...";
          console_error ("ERROR: " ++ message)], 1)).
Proof.
  assert (Hfailed : failed child_exit_1) by (right; discriminate).
  assert (Hne : [entry_A; entry_B] <> []) by discriminate.
  split; [reflexivity|]. split; [exact Hfailed|]. split.
  - destruct (proj1 (scanner_failure_is_a_warning (locale := ascii_locale)
                sample_globals
                (sample_world child_exit_1 sample_lines false (inr RootNull))
                child_exit_1 eq_refl Hfailed) eq_refl)
      as [message [Hmsg [_ Hrun]]].
    injection Hmsg as <-.
    exact (proj1 (proj2 (proj2 (Hrun eq_refl eq_refl)))
             [entry_A; entry_B] Hne eq_refl eq_refl).
  - destruct (proj2 (scanner_failure_is_a_warning (locale := ascii_locale)
                sample_globals (sample_download child_exit_1)
                child_exit_1 eq_refl Hfailed) eq_refl eq_refl eq_refl)
      as [message [_ Hrun]].
    exists message. exact Hrun.
Defined.

(* ================================================================== *)
(** * Further properties of the script *)

(** ** Exit status of a child process *)

Lemma getErrorFromStatus_cases (status : Status.SpawnSyncReturns) :
  (getErrorFromStatus status = None <->
   Status.signal status = None /\ Status.status status = Some 0) /\
  (forall message,
      getErrorFromStatus status = Some message ->
      is_error (Some message) = true /\
      prefix ("Command " ++ prettyCommand status 2 ++ " exited with ") message
      = true) /\
  (forall sig,
      Status.signal status = Some sig ->
      getErrorFromStatus status
      = Some ("Command " ++ prettyCommand status 2 ++ " exited with signal: " ++ sig)) /\
  (is_error (getErrorFromStatus status) = true <->
   Status.signal status <> None \/ Status.status status <> Some 0).
Proof.
  assert (Hprefix : forall a b, prefix a (a ++ b) = true).
  { intros a b. induction a as [|c a IH]; cbn [append prefix].
    - apply prefix_nil.
    - destruct (ascii_dec c c) as [_|Hn]; [exact IH | contradiction Hn; reflexivity]. }
  assert (Hmsg : forall tail,
             is_error (Some ("Command " ++ prettyCommand status 2
                             ++ " exited with " ++ tail)) = true /\
             prefix ("Command " ++ prettyCommand status 2 ++ " exited with ")
               ("Command " ++ prettyCommand status 2 ++ " exited with " ++ tail)
             = true).
  { intros tail. split; [reflexivity|].
    replace ("Command " ++ prettyCommand status 2 ++ " exited with " ++ tail)
      with (("Command " ++ prettyCommand status 2 ++ " exited with ") ++ tail).
    - apply Hprefix.
    - rewrite !append_assoc. reflexivity. }
  unfold getErrorFromStatus.
  destruct (Status.signal status) as [sig|];
    [|destruct (Status.status status) as [[|code|code]|]].
  - split; [split; [discriminate | intros [H _]; discriminate H]|].
    split; [intros m [= <-]; apply (Hmsg ("signal: " ++ sig))|].
    split; [intros sig' [= <-]; reflexivity|].
    split; [intros _; left; discriminate | reflexivity].
  - split; [split; auto|]. split; [discriminate|]. split; [discriminate|].
    split; [discriminate | intros [H|H]; contradiction H; reflexivity].
  - split; [split; [discriminate | intros [_ H]; discriminate H]|].
    split; [intros m [= <-]; apply (Hmsg ("code: " ++ Str.of_Z (Z.pos code)))|].
    split; [discriminate|].
    split; [intros _; right; discriminate | reflexivity].
  - split; [split; [discriminate | intros [_ H]; discriminate H]|].
    split; [intros m [= <-]; apply (Hmsg ("code: " ++ Str.of_Z (Z.neg code)))|].
    split; [discriminate|].
    split; [intros _; right; discriminate | reflexivity].
  - split; [split; [discriminate | intros [_ H]; discriminate H]|].
    split; [intros m [= <-]; apply (Hmsg ("code: " ++ "null"))|].
    split; [discriminate|].
    split; [intros _; right; discriminate | reflexivity].
Qed.

(** X1. [getErrorFromStatus] returns a message exactly when the process
    ended on a signal or with a status other than 0; a signal is reported
    even when there is a status as well; the message is never the empty
    string, so the test [if (message)] of [main] is true exactly for a
    failed process. *)
Theorem getErrorFromStatus_iff_failed (status : Status.SpawnSyncReturns) :
  (getErrorFromStatus status = None <->
   Status.signal status = None /\ Status.status status = Some 0) /\
  (forall message,
      getErrorFromStatus status = Some message ->
      is_error (Some message) = true /\
      prefix ("Command " ++ prettyCommand status 2 ++ " exited with ") message
      = true) /\
  (forall sig,
      Status.signal status = Some sig ->
      getErrorFromStatus status
      = Some ("Command " ++ prettyCommand status 2 ++ " exited with signal: " ++ sig)) /\
  (is_error (getErrorFromStatus status) = true <->
   Status.signal status <> None \/ Status.status status <> Some 0).
Proof. exact (getErrorFromStatus_cases status). Qed.

(** ** The steps before the summary is read *)

Lemma is_error_succeeded (status : Status.SpawnSyncReturns) :
  is_error (getErrorFromStatus status) = false <->
  Status.signal status = None /\ Status.status status = Some 0.
Proof.
  destruct (getErrorFromStatus_cases status) as [Hnone [Hsome _]].
  destruct (getErrorFromStatus status) as [message|] eqn:Hmsg.
  - split.
    + intros H. destruct (Hsome message eq_refl) as [Ht _]. congruence.
    + intros H. apply Hnone in H. discriminate H.
  - split; [intros _; apply Hnone; reflexivity | reflexivity].
Qed.

Lemma fetch_normal_iff (g : globals) (w : world) :
  outcome (fetch g w) = Normal tt <->
  jar_exists w = true \/
  (mkdir_error w = None /\ child_error (curl w) = None /\
   child_signal (curl w) = None /\ child_status (curl w) = Some 0).
Proof.
  unfold fetch. destruct (jar_exists w); simpl negb; cbv iota.
  - split; [intros _; left; reflexivity | reflexivity].
  - rewrite outcome_bind, outcome_info.
    destruct (mkdir_error w) as [e|].
    + split; [discriminate | intros [H|[H _]]; discriminate H].
    + rewrite bind_ret_l, outcome_bind.
      destruct (child_error (curl w)) as [e|] eqn:Herr.
      * rewrite (spawn_error _ _ _ _ _ Herr).
        split; [discriminate | intros [H|[_ [H _]]]; discriminate H].
      * spawn_returns Herr. rewrite outcome_ret.
        match goal with
        | |- context [is_error (getErrorFromStatus ?s)] =>
            pose proof (is_error_succeeded s) as Hok;
            destruct (is_error (getErrorFromStatus s))
        end; cbn [Status.signal Status.status] in Hok.
        -- split; [discriminate|]. intros [H|[_ [_ H]]]; [discriminate H|].
           apply Hok in H. discriminate H.
        -- split; [|reflexivity]. intros _. right.
           destruct (proj1 Hok eq_refl) as [Hs Hc]. auto.
Qed.

Lemma backup_normal_iff (g : globals) (w : world) :
  outcome (backup g w) = Normal tt <->
  summary_exists w = false \/ rename_error w = None.
Proof.
  unfold backup. destruct (summary_exists w).
  - destruct (rename_error w) as [e|].
    + split; [discriminate | intros [H|H]; discriminate H].
    + split; [intros _; right; reflexivity | reflexivity].
  - split; [intros _; left; reflexivity | reflexivity].
Qed.

Lemma reaches_check_prelude {locale : HostLocale} (g : globals) (w : world) :
  (reaches_check g w <-> prelude_passes w) /\
  (~ prelude_passes w -> exit_code g w = 1).
Proof.
  assert (Hiff : reaches_check g w <-> prelude_passes w).
  { unfold reaches_check, prelude_passes.
    rewrite <- (fetch_normal_iff g w), <- (backup_normal_iff g w), !outcome_bind.
    rewrite scan_outcome. split.
    - intros H. destruct (outcome (fetch g w)) as [[]| |]; try discriminate.
      destruct (outcome (backup g w)) as [[]| |]; try discriminate.
      destruct (child_error (java w)); [discriminate|]. auto.
    - intros [-> [-> ->]]. reflexivity. }
  split; [exact Hiff|]. intros Hno.
  destruct (exit_code_cases g w) as [H|[Hreach _]]; [assumption|].
  contradiction Hno. apply Hiff. assumption.
Qed.

(** X2. The run gets as far as reading the summary exactly when the tool
    is present or its download succeeds (the directory can be made and
    [curl] starts and ends with status 0 and no signal), the previous
    summary, if any, can be renamed, and the scanner can be started;
    whether the scanner then fails does not matter.  In every other case
    the run ends with exit code 1. *)
Theorem reaches_check_iff {locale : HostLocale} (g : globals) (w : world) :
  (reaches_check g w <-> prelude_passes w) /\
  (~ prelude_passes w -> exit_code g w = 1).
Proof. exact (reaches_check_prelude g w). Qed.

(** ** What the classifier returns *)

Lemma status_defined_or_not (lines : list string) :
  Forall (fun line => status (parse_line line) <> None) lines \/
  Exists (fun line => status (parse_line line) = None) lines.
Proof.
  induction lines as [|line lines IH].
  - left. constructor.
  - destruct (status (parse_line line)) eqn:Hs.
    + destruct IH as [IH|IH].
      * left. constructor; [congruence | assumption].
      * right. apply Exists_cons_tl. assumption.
    + right. apply Exists_cons_hd. assumption.
Qed.

Lemma classifier_unreadable {locale : HostLocale} (summary : stream string)
  (e : js_error) :
  failure summary = Some e ->
  Forall (fun line => status (parse_line line) <> None) (items summary) ->
  getRestrictedDependenciesFromSummary summary = throw e.
Proof.
  intros Hfail Hall. unfold getRestrictedDependenciesFromSummary, for_await.
  cbn [readSummaryLines items failure]. rewrite collect_defined.
  - rewrite bind_ret_l, Hfail. reflexivity.
  - apply Forall_forall. intros x Hx. apply in_map_iff in Hx.
    destruct Hx as [line [<- Hline]].
    rewrite Forall_forall in Hall. apply Hall. assumption.
Qed.

Lemma classifier_cases {locale : HostLocale} (summary : stream string) :
  (exists e, getRestrictedDependenciesFromSummary summary = throw e /\
             (Exists (fun line => status (parse_line line) = None) (items summary) \/
              failure summary = Some e)) \/
  (failure summary = None /\
   Forall (fun line => status (parse_line line) <> None) (items summary) /\
   getRestrictedDependenciesFromSummary summary
   = ret (sort_by dependency_order
            (filter restricted_row (map parse_line (items summary))))).
Proof.
  destruct (status_defined_or_not (items summary)) as [Hall|Hex].
  - destruct (failure summary) as [e|] eqn:Hfail.
    + left. exists e. split; [|right; reflexivity].
      apply classifier_unreadable; assumption.
    + right. split; [reflexivity|]. split; [assumption|].
      apply classifier_defined; assumption.
  - left. eexists. split; [apply classifier_undefined; assumption|].
    left. assumption.
Qed.

(** ** When a run succeeds *)

Lemma filter_nil_iff {A : Type} (f : A -> bool) (l : list A) :
  filter f l = [] <-> forall x, In x l -> f x = false.
Proof.
  induction l as [|x l IH]; simpl.
  - split; [intros _ y [] | reflexivity].
  - destruct (f x) eqn:Hx.
    + split; [discriminate|]. intros H. specialize (H x (or_introl eq_refl)).
      congruence.
    + rewrite IH. split.
      * intros H y [<-|Hy]; auto.
      * intros H y Hy. apply H. right. assumption.
Qed.

Lemma covered_iff (restricted rows : list DashSummaryEntry) (baseline : JsMap.t) :
  Permutation restricted rows ->
  fst (reconcile restricted baseline) = [] <->
  forall e, In e rows -> JsMap.has baseline (dependency e) = true.
Proof.
  intros Hperm. rewrite reconcile_unhandled, filter_nil_iff. split.
  - intros H e He. apply (Permutation_in _ (Permutation_sym Hperm)) in He.
    specialize (H e He). apply negb_false_iff in H. assumption.
  - intros H e He. apply (Permutation_in _ Hperm) in He.
    rewrite (H e He). reflexivity.
Qed.

Lemma readBaseline_cases (g : globals) (file : js_error + baseline_json) :
  (exists baseline, readBaseline g file = ret baseline) \/
  (exists e, readBaseline g file = throw e) \/
  readBaseline g file
  = ([console_error ("ERROR: Invalid format for " ++ Str.dquote
                     ++ dashLicensesBaseline g ++ Str.dquote)], Exit 1).
Proof.
  destruct file as [e|[elements|props| |b|n|s]]; simpl.
  - right. left. exists e. reflexivity.
  - left. eexists. reflexivity.
  - left. eexists. reflexivity.
  - right. right. reflexivity.
  - right. right. reflexivity.
  - right. right. reflexivity.
  - right. right. reflexivity.
Qed.

Lemma defined_three_fields (lines : list string) :
  Forall (fun line => status (parse_line line) <> None) lines <->
  Forall (fun line => (3 <= field_count line)%nat) lines.
Proof.
  rewrite !Forall_forall. split; intros H x Hx; apply status_defined, H, Hx.
Qed.

Lemma check_decided {locale : HostLocale} (g : globals) (w : world) :
  (snd (settle (check g w)) = 0 /\ check_passes g w) \/
  (snd (settle (check g w)) = 1 /\ ~ check_passes g w).
Proof.
  unfold check_passes, restricted_rows.
  destruct (classifier_cases (summary_file w))
    as [[e [Hthrow Hwhy]] | [Hfail [Hall Hret]]].
  - right. split.
    + unfold check. rewrite Hthrow. reflexivity.
    + intros [Hfail [Hall _]]. destruct Hwhy as [Hex|Hsome]; [|congruence].
      apply defined_three_fields in Hall.
      apply Exists_exists in Hex. destruct Hex as [line [Hin Hnone]].
      rewrite Forall_forall in Hall. apply (Hall line Hin). assumption.
  - pose proof (sort_by_perm _ dependency_order
                  (filter restricted_row (map parse_line (items (summary_file w)))))
      as Hperm.
    apply Permutation_sym in Hperm.
    rewrite (check_classified g w _ Hret).
    destruct (sort_by dependency_order
                (filter restricted_row (map parse_line (items (summary_file w)))))
      as [|r rest] eqn:Hsorted.
    + left. split; [reflexivity|]. split; [assumption|].
      split; [apply defined_three_fields; assumption|].
      left. apply Permutation_nil. assumption.
    + assert (Hrows : filter restricted_row (map parse_line (items (summary_file w)))
                      <> []).
      { intros Hnil. rewrite Hnil in Hperm. apply Permutation_sym in Hperm.
        apply Permutation_nil in Hperm. discriminate Hperm. }
      destruct (baseline_exists w).
      * destruct (readBaseline_cases g (baseline_file w))
          as [[baseline Hread] | [[e Hread] | Hread]].
        -- rewrite settle_code, outcome_bind.
           rewrite (check_baseline_result g (r :: rest) _ _ Hread).
           unfold outcome at 2. cbn [snd].
           pose proof (covered_iff (r :: rest) _ baseline Hperm) as Hcov.
           destruct (fst (reconcile (r :: rest) baseline)) as [|u us].
           ++ left. split; [reflexivity|]. split; [assumption|].
              split; [apply defined_three_fields; assumption|].
              right. split; [reflexivity|]. exists baseline.
              split; [assumption|]. apply Hcov. reflexivity.
           ++ right. split; [reflexivity|].
              intros [_ [_ [Hnil | [_ [baseline' [Hread' Hall']]]]]];
                [contradiction|].
              rewrite Hread in Hread'. injection Hread' as <-.
              apply Hcov in Hall'. discriminate Hall'.
        -- right. split.
           ++ unfold check_baseline. rewrite Hread. reflexivity.
           ++ intros [_ [_ [Hnil | [_ [baseline [Hread' _]]]]]];
                [contradiction|].
              rewrite Hread in Hread'. discriminate Hread'.
        -- right. split.
           ++ unfold check_baseline. rewrite Hread. reflexivity.
           ++ intros [_ [_ [Hnil | [_ [baseline [Hread' _]]]]]];
                [contradiction|].
              rewrite Hread in Hread'. discriminate Hread'.
      * right. split; [reflexivity|].
        intros [_ [_ [Hnil | [Hex _]]]]; [contradiction | discriminate Hex].
Qed.

Lemma exit_code_decided {locale : HostLocale} (g : globals) (w : world) :
  (exit_code g w = 0 <-> reaches_check g w /\ check_passes g w) /\
  (exit_code g w = 0 \/ exit_code g w = 1).
Proof.
  destruct (exit_code_cases g w) as [H1|[Hreach Hcode]].
  - split; [|right; assumption]. split.
    + intros H0. rewrite H1 in H0. discriminate H0.
    + intros [Hreach Hpass]. rewrite (exit_code_reached g w Hreach).
      destruct (check_decided g w) as [[H _]|[_ H]]; [assumption | contradiction].
  - rewrite Hcode.
    destruct (check_decided g w) as [[H Hpass]|[H Hfail]]; rewrite H.
    + split; [|left; reflexivity]. split; auto.
    + split; [|right; reflexivity]. split; [discriminate|].
      intros [_ Hpass]. contradiction.
Qed.

(** X3. A run ends with exit code 0 exactly when it gets as far as the
    summary, the summary can be read to its end, every line of it has at
    least three fields, and either no row is restricted or the baseline
    file exists, loads as a map and has the dependency of every restricted
    row as a key.  Every other run ends with exit code 1: no run ends with
    another code. *)
Theorem exit_code_0_iff {locale : HostLocale} (g : globals) (w : world) :
  (exit_code g w = 0 <-> reaches_check g w /\ check_passes g w) /\
  (exit_code g w = 0 \/ exit_code g w = 1).
Proof. exact (exit_code_decided g w). Qed.

Lemma exit_code_agree {locale : HostLocale} (g g' : globals) (w w' : world) :
  (reaches_check g w /\ check_passes g w ->
   reaches_check g' w' /\ check_passes g' w') ->
  (reaches_check g' w' /\ check_passes g' w' ->
   reaches_check g w /\ check_passes g w) ->
  exit_code g w = exit_code g' w'.
Proof.
  intros H1 H2.
  destruct (exit_code_decided g w) as [Hw [H0|H0]];
    destruct (exit_code_decided g' w') as [Hw' [H0'|H0']]; try congruence.
  - apply Hw in H0. apply H1, Hw' in H0. congruence.
  - apply Hw' in H0'. apply H2, Hw in H0'. congruence.
Qed.

Lemma restricted_rows_in {locale : HostLocale} (w : world) (e : DashSummaryEntry) :
  In e (restricted_rows w) <->
  exists line, In line (items (summary_file w)) /\ e = parse_line line /\
               restricted_row e = true.
Proof.
  unfold restricted_rows. rewrite filter_In, in_map_iff. split.
  - intros [[line [<- Hin]] Hrow]. exists line. auto.
  - intros [line [Hin [-> Hrow]]]. split; [exists line; auto | assumption].
Qed.

Lemma check_passes_reordered {locale : HostLocale} (g : globals) (w : world)
  (lines lines' : list string) :
  Permutation lines lines' ->
  check_passes g (with_summary_lines w lines) ->
  check_passes g (with_summary_lines w lines').
Proof.
  intros Hperm [Hfail [Hall Hrows]].
  assert (Hin : forall e, In e (restricted_rows (with_summary_lines w lines')) ->
                          In e (restricted_rows (with_summary_lines w lines))).
  { intros e He. apply restricted_rows_in in He. apply restricted_rows_in.
    destruct He as [line [Hline Hrest]]. exists line. split; [|assumption].
    cbn [with_summary_lines summary_file items] in *.
    apply (Permutation_in _ (Permutation_sym Hperm)). assumption. }
  split; [exact Hfail|]. split.
  - cbn [with_summary_lines summary_file items] in *.
    apply (Permutation_Forall Hperm). assumption.
  - destruct Hrows as [Hnil | [Hex [baseline [Hread Hcov]]]].
    + left. destruct (restricted_rows (with_summary_lines w lines')) as [|e rest];
        [reflexivity|].
      specialize (Hin e (or_introl eq_refl)). rewrite Hnil in Hin. destruct Hin.
    + right. split; [exact Hex|]. exists baseline. split; [exact Hread|].
      intros e He. apply Hcov, Hin. assumption.
Qed.

(** X4. The order of the lines of the summary does not matter for the
    verdict: two runs that differ only in the order of the summary lines
    end with the same exit code. *)
Theorem exit_code_line_order {locale : HostLocale} (g : globals) (w : world)
  (lines lines' : list string) :
  Permutation lines lines' ->
  exit_code g (with_summary_lines w lines)
  = exit_code g (with_summary_lines w lines').
Proof.
  intros Hperm. apply exit_code_agree.
  - intros [Hreach Hpass]. split; [exact Hreach|].
    apply (check_passes_reordered g w lines lines' Hperm). assumption.
  - intros [Hreach Hpass]. split; [exact Hreach|].
    apply (check_passes_reordered g w lines' lines (Permutation_sym Hperm)).
    assumption.
Qed.

Lemma exit_code_line_order_witness :
  Permutation ["B, lic, Restricted, src"; "A, lic, restricted, src"]
              ["A, lic, restricted, src"; "B, lic, Restricted, src"] /\
  exit_code (locale := ascii_locale) sample_globals
    (with_summary_lines
       (sample_world child_ok [] true (inr (RootArray ["A"])))
       ["B, lic, Restricted, src"; "A, lic, restricted, src"])
  = exit_code (locale := ascii_locale) sample_globals
      (with_summary_lines
         (sample_world child_ok [] true (inr (RootArray ["A"])))
         ["A, lic, restricted, src"; "B, lic, Restricted, src"]).
Proof.
  assert (Hperm : Permutation
            ["B, lic, Restricted, src"; "A, lic, restricted, src"]
            ["A, lic, restricted, src"; "B, lic, Restricted, src"])
    by apply perm_swap.
  split; [exact Hperm|].
  exact (exit_code_line_order (locale := ascii_locale) sample_globals
           (sample_world child_ok [] true (inr (RootArray ["A"]))) _ _ Hperm).
Defined.

Lemma readBaseline_globals (g g' : globals) (file : js_error + baseline_json)
  (baseline : JsMap.t) :
  readBaseline g file = ret baseline -> readBaseline g' file = ret baseline.
Proof. destruct file as [e|[elements|props| |b|n|s]]; simpl; try discriminate; auto. Qed.

Lemma check_passes_globals {locale : HostLocale} (g g' : globals) (w : world) :
  check_passes g w -> check_passes g' w.
Proof.
  intros [Hfail [Hall Hrows]]. split; [exact Hfail|]. split; [exact Hall|].
  destruct Hrows as [Hnil | [Hex [baseline [Hread Hcov]]]]; [left; exact Hnil|].
  right. split; [exact Hex|]. exists baseline. split; [|exact Hcov].
  apply (readBaseline_globals g g'). assumption.
Qed.

(** X5. The colour toggle and the three paths change what is printed,
    never the verdict: for the same answers of the file system and of the
    two child processes the exit code is the same under any two settings
    of the module-level constants. *)
Theorem exit_code_ignores_globals {locale : HostLocale} (g g' : globals)
  (w : world) :
  exit_code g w = exit_code g' w.
Proof.
  apply exit_code_agree; intros [Hreach Hpass]; split.
  - apply reaches_check_prelude. apply (proj1 (reaches_check_prelude g w)). assumption.
  - apply (check_passes_globals g g'). assumption.
  - apply reaches_check_prelude. apply (proj1 (reaches_check_prelude g' w)). assumption.
  - apply (check_passes_globals g' g). assumption.
Qed.

(** X6. Every entry the classifier returns comes from a line of the
    summary with at least three fields: its dependency, license and
    status are strings (only the source may be [undefined]), and its
    status lower-cases to "restricted".  So no finding line is ever
    printed with an [undefined] dependency or license. *)
Theorem classifier_entries_complete {locale : HostLocale}
  (summary : stream string) (restricted : list DashSummaryEntry) :
  getRestrictedDependenciesFromSummary summary = ret restricted ->
  forall e, In e restricted ->
    exists line d l s,
      In line (items summary) /\ e = parse_line line /\
      (3 <= field_count line)%nat /\
      dependency e = Some d /\ license e = Some l /\ status e = Some s /\
      toLocaleLowerCase s = "restricted".
Proof.
  intros Hret e He.
  destruct (classifier_cases summary) as [[err [Hthrow _]] | [_ [Hall Hsorted]]].
  - rewrite Hthrow in Hret. discriminate Hret.
  - rewrite Hsorted in Hret. injection Hret as <-.
    apply (Permutation_in _ (Permutation_sym (sort_by_perm _ _ _))) in He.
    apply filter_In in He. destruct He as [Hin Hrow].
    apply in_map_iff in Hin. destruct Hin as [line [<- Hline]].
    rewrite Forall_forall in Hall. specialize (Hall line Hline).
    apply status_defined in Hall.
    unfold restricted_row in Hrow.
    destruct (status (parse_line line)) as [s|] eqn:Hs; [|discriminate Hrow].
    destruct (dependency (parse_line line)) as [d|] eqn:Hd.
    + destruct (license (parse_line line)) as [l|] eqn:Hl.
      * exists line, d, l, s. repeat split; auto.
        apply String.eqb_eq. assumption.
      * exfalso. unfold parse_line in Hl. cbn [license] in Hl.
        apply nth_error_None in Hl. unfold field_count in Hall. lia.
    + exfalso. apply (dependency_defined line). assumption.
Qed.

Lemma classifier_entries_complete_witness :
  getRestrictedDependenciesFromSummary (locale := ascii_locale)
    {| items := ["A, MIT, restricted"; "B, EPL-2.0, approved, clearlydefined"];
       failure := None |}
  = ret [{| dependency := Some "A"; license := Some "MIT";
            status := Some "restricted"; source := None |}] /\
  exists line d l s,
    In line ["A, MIT, restricted"; "B, EPL-2.0, approved, clearlydefined"] /\
    {| dependency := Some "A"; license := Some "MIT";
       status := Some "restricted"; source := None |} = parse_line line /\
    (3 <= field_count line)%nat /\
    Some "A" = Some d /\ Some "MIT" = Some l /\ Some "restricted" = Some s /\
    Str.lower s = "restricted".
Proof.
  split; [reflexivity|].
  exact (classifier_entries_complete (locale := ascii_locale)
           {| items := ["A, MIT, restricted"; "B, EPL-2.0, approved, clearlydefined"];
              failure := None |}
           [{| dependency := Some "A"; license := Some "MIT";
               status := Some "restricted"; source := None |}]
           eq_refl _ (or_introl eq_refl)).
Defined.

(** ** Growing the baseline *)

(** X7. Adding keys to the baseline can only remove findings: when every
    key of one baseline is a key of another, the entries left unhandled
    under the larger one are among those left unhandled under the smaller
    one, in the same order, and a run that succeeds with the smaller
    baseline succeeds with the larger one. *)
Theorem baseline_extension {locale : HostLocale} (g : globals)
  (restricted : list DashSummaryEntry) (baseline baseline' : JsMap.t) :
  (forall k, In k (JsMap.keys baseline) -> In k (JsMap.keys baseline')) ->
  fst (reconcile restricted baseline')
  = filter (fun e => negb (JsMap.has baseline' (dependency e)))
      (fst (reconcile restricted baseline)) /\
  (fst (reconcile restricted baseline) = [] ->
   fst (reconcile restricted baseline') = []) /\
  (forall w file file',
      readBaseline g file = ret baseline ->
      readBaseline g file' = ret baseline' ->
      exit_code g (with_baseline w true file) = 0 ->
      exit_code g (with_baseline w true file') = 0).
Proof.
  intros Hsub.
  assert (Hhas : forall key, JsMap.has baseline key = true ->
                             JsMap.has baseline' key = true).
  { intros [k|] H; [|discriminate H].
    apply map_has_keys. apply Hsub. apply map_has_keys. assumption. }
  assert (Hfilter : fst (reconcile restricted baseline')
                    = filter (fun e => negb (JsMap.has baseline' (dependency e)))
                        (fst (reconcile restricted baseline))).
  { rewrite !reconcile_unhandled, filter_filter. apply filter_ext. intros e.
    destruct (JsMap.has baseline (dependency e)) eqn:Hb; [|reflexivity].
    rewrite (Hhas _ Hb). reflexivity. }
  split; [exact Hfilter|]. split.
  - intros Hnil. rewrite Hfilter, Hnil. reflexivity.
  - intros w file file' Hread Hread' Hcode.
    apply exit_code_decided in Hcode. apply exit_code_decided.
    destruct Hcode as [Hreach [Hfail [Hall Hrows]]].
    split; [exact Hreach|]. split; [exact Hfail|]. split; [exact Hall|].
    destruct Hrows as [Hnil | [_ [b [Hb Hcov]]]]; [left; exact Hnil|].
    right. split; [reflexivity|]. exists baseline'. split; [exact Hread'|].
    intros e He. apply Hhas.
    cbn [with_baseline baseline_file] in Hb. rewrite Hread in Hb.
    injection Hb as <-. apply Hcov. exact He.
Qed.

Lemma baseline_extension_witness :
  (forall k, In k (JsMap.keys [("A", JNull)]) ->
             In k (JsMap.keys [("A", JNull); ("B", JStr "reviewed")])) /\
  fst (reconcile [entry_A; entry_B] [("A", JNull)]) = [entry_B] /\
  fst (reconcile [entry_A; entry_B] [("A", JNull); ("B", JStr "reviewed")]) = [].
Proof.
  assert (Hsub : forall k, In k (JsMap.keys [("A", JNull)]) ->
                           In k (JsMap.keys [("A", JNull); ("B", JStr "reviewed")])).
  { intros k [<-|[]]. left. reflexivity. }
  split; [exact Hsub|]. split; [reflexivity|].
  rewrite (proj1 (baseline_extension (locale := ascii_locale) sample_globals
                    [entry_A; entry_B] [("A", JNull)]
                    [("A", JNull); ("B", JStr "reviewed")] Hsub)).
  reflexivity.
Defined.

(** ** The last line of a run *)

Section LastLine.

Context {locale : HostLocale}.
Variable g : globals.
Variable w : world.

Lemma ends_loud_app (pre out : list output) :
  ends_loud g w out -> ends_loud g w (pre ++ out).
Proof.
  intros [before [o [-> Ho]]]. exists (pre ++ before)%list, o.
  rewrite app_assoc. auto.
Qed.

Lemma ends_loud_all (out : list output) :
  out <> [] -> Forall (failure_line g w) out -> ends_loud g w out.
Proof.
  intros Hne Hall. destruct (exists_last Hne) as [before [o ->]].
  exists before, o. split; [reflexivity|].
  rewrite Forall_forall in Hall. apply Hall. apply in_or_app. right. left.
  reflexivity.
Qed.

Lemma closes_app (pre out : list output) (code : Z) :
  closes g w (out, code) -> closes g w ((pre ++ out)%list, code).
Proof.
  intros [[Hc [before Hb]] | [Hc Hl]]; cbn [fst snd] in *.
  - left. split; [assumption|]. exists (pre ++ before)%list.
    rewrite Hb, app_assoc. reflexivity.
  - right. split; [assumption|]. apply ends_loud_app. assumption.
Qed.

Lemma settle_bind (A : Type) (m : M A) (k : A -> M unit) :
  settle (bind m k)
  = match outcome m with
    | Normal a => ((printed m ++ fst (settle (k a)))%list, snd (settle (k a)))
    | Exit code => (printed m, code)
    | Throw e => ((printed m ++ [console_error_value e])%list, 1)
    end.
Proof.
  destruct m as [out [a|code|e]]; cbn [outcome printed fst snd]; try reflexivity.
  apply (settle_bind_normal (out, Normal a) k a). reflexivity.
Qed.

Lemma closes_bind (A : Type) (m : M A) (k : A -> M unit) :
  (forall code, outcome m = Exit code -> code = 1 /\ ends_loud g w (printed m)) ->
  (forall a, closes g w (settle (k a))) ->
  closes g w (settle (bind m k)).
Proof.
  intros Hexit Hk. rewrite settle_bind.
  destruct (outcome m) as [a|code|e] eqn:Hm.
  - specialize (Hk a). destruct (settle (k a)) as [out code].
    apply closes_app. assumption.
  - destruct (Hexit code eq_refl) as [-> Hl]. right. auto.
  - right. split; [reflexivity|]. exists (printed m), (console_error_value e).
    split; [reflexivity|]. right. left. exists e. reflexivity.
Qed.

Lemma findings_fail (entries : list DashSummaryEntry) :
  (forall e, In e entries -> In e (restricted_rows w)) ->
  Forall (failure_line g w) (map (finding_line g) entries).
Proof.
  intros Hsub. apply Forall_forall. intros o Ho. apply in_map_iff in Ho.
  destruct Ho as [e [<- He]]. right. right. exists e. auto.
Qed.

Lemma error_then_findings (text : string) (entries : list DashSummaryEntry) :
  (forall e, In e entries -> In e (restricted_rows w)) ->
  ends_loud g w (console_error text :: map (finding_line g) entries).
Proof.
  intros Hsub. apply ends_loud_all; [discriminate|].
  constructor; [left; exists text; reflexivity | apply findings_fail; exact Hsub].
Qed.

Lemma fetch_exit (code : Z) :
  outcome (fetch g w) = Exit code ->
  code = 1 /\ ends_loud g w (printed (fetch g w)).
Proof.
  unfold fetch. destruct (jar_exists w); simpl negb; cbv iota; [discriminate|].
  unfold info at 1. rewrite bind_emit.
  destruct (mkdir_error w) as [e|]; [discriminate|].
  rewrite bind_ret_l.
  destruct (child_error (curl w)) as [e|] eqn:Herr.
  - rewrite (spawn_error _ _ _ _ _ Herr). intros [= <-]. split; [reflexivity|].
    exists [console_warn (cyan g "INFO: Fetching dash-licenses...")],
           (console_error_value e).
    split; [reflexivity|]. right. left. exists e. reflexivity.
  - spawn_returns Herr. rewrite bind_ret_l.
    match goal with
    | |- context [is_error ?x] => destruct (is_error x)
    end; [|discriminate].
    intros [= <-]. split; [reflexivity|].
    eexists [_], _. split; [reflexivity|]. left. eexists. reflexivity.
Qed.

Lemma scan_exit (code : Z) :
  outcome (scan g w) = Exit code ->
  code = 1 /\ ends_loud g w (printed (scan g w)).
Proof.
  unfold scan. unfold info at 1. rewrite bind_emit.
  destruct (child_error (java w)) as [e|] eqn:Herr.
  - rewrite (spawn_error _ _ _ _ _ Herr). intros [= <-]. split; [reflexivity|].
    exists [console_warn (cyan g "INFO: Running dash-licenses...")],
           (console_error_value e).
    split; [reflexivity|]. right. left. exists e. reflexivity.
  - spawn_returns Herr. rewrite bind_ret_l.
    match goal with
    | |- context [is_error ?x] => destruct (is_error x)
    end; discriminate.
Qed.

Lemma backup_exit (code : Z) :
  outcome (backup g w) = Exit code ->
  code = 1 /\ ends_loud g w (printed (backup g w)).
Proof.
  destruct (backup_outcome g w) as [H|[e H]]; rewrite H; discriminate.
Qed.

Lemma check_closes : closes g w (settle (check g w)).
Proof.
  destruct (classifier_cases (summary_file w))
    as [[e [Hthrow _]] | [_ [_ Hret]]].
  - right. unfold check. rewrite Hthrow. split; [reflexivity|].
    exists [], (console_error_value e). split; [reflexivity|].
    right. left. exists e. reflexivity.
  - rewrite (check_classified g w _ Hret).
    pose proof (sort_by_perm _ dependency_order (restricted_rows w)) as Hperm.
    unfold restricted_rows in Hperm at 2.
    destruct (sort_by dependency_order
                (filter restricted_row (map parse_line (items (summary_file w)))))
      as [|r rest].
    + left. split; [reflexivity|]. exists []. reflexivity.
    + assert (Hrows : forall e, In e (r :: rest) -> In e (restricted_rows w)).
      { intros e He. apply (Permutation_in _ (Permutation_sym Hperm)). exact He. }
      destruct (baseline_exists w).
      * apply closes_bind.
        -- intros code.
           destruct (readBaseline_cases g (baseline_file w))
             as [[baseline Hread] | [[e Hread] | Hread]].
           ++ rewrite (check_baseline_result g (r :: rest) _ _ Hread).
              unfold outcome, printed. cbn [fst snd].
              pose proof (reconcile_unhandled (r :: rest) baseline) as Hun.
              destruct (fst (reconcile (r :: rest) baseline)) as [|u us];
                [discriminate|].
              intros [= <-]. split; [reflexivity|].
              rewrite app_comm_cons. apply ends_loud_app.
              apply error_then_findings. intros e He. apply Hrows.
              rewrite Hun in He. apply filter_In in He. tauto.
           ++ unfold check_baseline. rewrite Hread. discriminate.
           ++ unfold check_baseline. rewrite Hread. intros [= <-].
              split; [reflexivity|].
              eexists [_], _. split; [reflexivity|]. left. eexists. reflexivity.
        -- intros _. left. split; [reflexivity|]. exists []. reflexivity.
      * right. split; [reflexivity|]. cbn [settle fst].
        apply error_then_findings. exact Hrows.
Qed.

Lemma program_closes : closes g w (program g w).
Proof.
  unfold program, main.
  apply closes_bind; [apply fetch_exit|]. intros _.
  apply closes_bind; [apply backup_exit|]. intros _.
  apply closes_bind; [apply scan_exit|]. intros _.
  apply check_closes.
Qed.

End LastLine.

(** X8. A run announces success and only success: it ends with exit code
    0 exactly when the last line it prints is [INFO: Done.]; a run that
    ends with exit code 1 prints at least one line, and its last line is
    an error line ([console.error] with a text), a printed error value, or
    the finding line of a restricted row of the summary; it is never an
    informational, warning, annotation or [> key] line. *)
Theorem done_iff_success {locale : HostLocale} (g : globals) (w : world) :
  (exit_code g w = 0 <->
   exists before,
     fst (program g w) = (before ++ [console_warn (cyan g "INFO: Done.")])%list) /\
  (exit_code g w = 1 ->
   exists before o,
     fst (program g w) = (before ++ [o])%list /\
     ((exists text, o = console_error text) \/
      (exists e, o = console_error_value e) \/
      (exists entry, In entry (restricted_rows w) /\ o = finding_line g entry))).
Proof.
  unfold exit_code.
  destruct (program_closes g w) as [[Hc Hdone] | [Hc Hloud]]; rewrite Hc.
  - split; [split; auto|]. discriminate.
  - split; [|intros _; exact Hloud]. split; [discriminate|].
    intros [before Hb]. destruct Hloud as [before' [o [Ho Hfail]]].
    rewrite Hb in Ho. apply app_inj_tail in Ho. destruct Ho as [_ <-].
    destruct Hfail as [[text H] | [[e H] | [entry [_ H]]]]; discriminate H.
Qed.

(** ** Writing a line and reading it back *)

Lemma split_from_piece (piece cur : string) :
  Str.contains ", " piece = false ->
  Str.split_from ", " 0 cur piece = [Str.rev_append cur piece].
Proof.
  revert cur. induction piece as [|c piece IH]; intros cur Hno.
  - reflexivity.
  - rewrite contains_cons in Hno. apply orb_false_iff in Hno.
    destruct Hno as [Hp Hrest]. cbn [Str.split_from]. rewrite Hp.
    rewrite (IH _ Hrest). reflexivity.
Qed.

Lemma prefix_before_separator (c : ascii) (piece rest : string) :
  Str.contains ", " (String c piece) = false ->
  prefix ", " (String c (piece ++ ", " ++ rest)) = false.
Proof.
  intros Hno. rewrite contains_cons in Hno. apply orb_false_iff in Hno.
  destruct Hno as [Hp _].
  destruct piece as [|b piece].
  - cbn [append prefix].
    destruct (ascii_dec ","%char c) as [<-|]; [|reflexivity].
    destruct (ascii_dec " "%char ","%char) as [Heq|]; [discriminate Heq|].
    reflexivity.
  - transitivity (prefix ", " (String c (String b piece))); [|exact Hp].
    assert (Hne : String b "" <> "") by discriminate.
    exact (prefix_two c (String b "") (piece ++ ", " ++ rest) piece Hne).
Qed.

Lemma split_from_field (piece rest cur : string) :
  Str.contains ", " piece = false ->
  Str.split_from ", " 0 cur (piece ++ ", " ++ rest)
  = Str.rev_append cur piece :: Str.split_from ", " 0 "" rest.
Proof.
  revert cur. induction piece as [|c piece IH]; intros cur Hno.
  - cbn [append Str.split_from].
    assert (Hp : prefix ", " (String ","%char (String " "%char rest)) = true)
      by (apply prefix_separator; eexists; reflexivity).
    rewrite Hp. reflexivity.
  - change (String c piece ++ ", " ++ rest)
      with (String c (piece ++ ", " ++ rest)).
    cbn [Str.split_from].
    rewrite (prefix_before_separator c piece rest Hno).
    rewrite contains_cons in Hno. apply orb_false_iff in Hno.
    rewrite (IH _ (proj2 Hno)). reflexivity.
Qed.

Lemma split_join (pieces : list string) :
  pieces <> [] ->
  Forall (fun piece => Str.contains ", " piece = false) pieces ->
  Str.split ", " (Str.join ", " pieces) = pieces.
Proof.
  unfold Str.split. induction pieces as [|p pieces IH]; intros Hne Hall.
  - contradiction Hne. reflexivity.
  - inversion Hall as [|? ? Hp Hrest]; subst.
    destruct pieces as [|q pieces].
    + cbn [Str.join]. rewrite (split_from_piece _ _ Hp). reflexivity.
    + rewrite join_cons by discriminate.
      rewrite (split_from_field _ _ _ Hp).
      rewrite IH; [reflexivity | discriminate | assumption].
Qed.

(** X9. A line written as four fields joined by ", " is read back as
    those four fields, provided no field contains the separator; with
    further fields after the fourth the entry is the same.  More
    generally, cutting a text that was joined from separator-free pieces
    gives back the pieces. *)
Theorem parse_line_of_fields (d l s src : string) (more : list string) :
  Forall (fun piece => Str.contains ", " piece = false)
         (d :: l :: s :: src :: more) ->
  Str.split ", " (Str.join ", " (d :: l :: s :: src :: more))
  = d :: l :: s :: src :: more /\
  parse_line (Str.join ", " (d :: l :: s :: src :: more))
  = {| dependency := Some d; license := Some l;
       status := Some s; source := Some src |} /\
  parse_line (d ++ ", " ++ l ++ ", " ++ s ++ ", " ++ src)
  = {| dependency := Some d; license := Some l;
       status := Some s; source := Some src |}.
Proof.
  intros Hall.
  assert (Hsplit : Str.split ", " (Str.join ", " (d :: l :: s :: src :: more))
                   = d :: l :: s :: src :: more)
    by (apply split_join; [discriminate | assumption]).
  split; [exact Hsplit|]. split.
  - unfold parse_line. rewrite Hsplit. reflexivity.
  - change (d ++ ", " ++ l ++ ", " ++ s ++ ", " ++ src)
      with (Str.join ", " [d; l; s; src]).
    unfold parse_line. rewrite split_join; [reflexivity | discriminate |].
    inversion Hall as [|? ? H1 Hall1]; subst.
    inversion Hall1 as [|? ? H2 Hall2]; subst.
    inversion Hall2 as [|? ? H3 Hall3]; subst.
    inversion Hall3 as [|? ? H4 _]; subst.
    repeat constructor; assumption.
Qed.

Lemma parse_line_of_fields_witness :
  Forall (fun piece => Str.contains ", " piece = false)
         ["npm/npmjs/-/lodash/4.17.21"; "CC0-1.0 AND MIT"; "approved";
          "clearlydefined"] /\
  parse_line "npm/npmjs/-/lodash/4.17.21, CC0-1.0 AND MIT, approved, clearlydefined"
  = {| dependency := Some "npm/npmjs/-/lodash/4.17.21";
       license := Some "CC0-1.0 AND MIT";
       status := Some "approved"; source := Some "clearlydefined" |}.
Proof.
  assert (Hall : Forall (fun piece => Str.contains ", " piece = false)
                   ["npm/npmjs/-/lodash/4.17.21"; "CC0-1.0 AND MIT"; "approved";
                    "clearlydefined"]).
  { apply Forall_cons; [vm_compute; reflexivity|].
    apply Forall_cons; [vm_compute; reflexivity|].
    apply Forall_cons; [vm_compute; reflexivity|].
    apply Forall_cons; [vm_compute; reflexivity|]. apply Forall_nil. }
  split; [exact Hall|].
  exact (proj2 (proj2 (parse_line_of_fields _ _ _ _ [] Hall))).
Defined.

(** ** Annotation lines *)

Section Lines.

Variable P : output -> Prop.
Hypothesis plain_lines : forall o, is_data o = false -> P o.

Lemma lines_ret (A : Type) (a : A) : lines P (ret a).
Proof. constructor. Qed.

Lemma lines_throw (A : Type) (e : js_error) : lines P (throw (A := A) e).
Proof. constructor. Qed.

Lemma lines_exit (A : Type) (code : Z) : lines P (process_exit (A := A) code).
Proof. constructor. Qed.

Lemma lines_emit (o : output) : is_data o = false -> lines P (emit o).
Proof. intros H. constructor; [apply plain_lines; assumption | constructor]. Qed.

Lemma lines_bind (A B : Type) (m : M A) (k : A -> M B) :
  lines P m -> (forall a, outcome m = Normal a -> lines P (k a)) -> lines P (bind m k).
Proof.
  unfold lines. intros Hm Hk. rewrite printed_bind. apply Forall_app.
  split; [assumption|].
  destruct (outcome m) as [a|code|e]; [apply Hk; reflexivity | constructor | constructor].
Qed.

Lemma lines_spawn (bin : string) (args : list string) (opts : SpawnSyncOptions)
  (child : child_result) : lines P (spawn bin args opts child).
Proof.
  unfold spawn. cbn [Status.error].
  destruct (child_error child) as [e|]; [|apply lines_ret].
  apply lines_bind; [apply lines_emit; reflexivity|].
  intros _ _. apply lines_exit.
Qed.

Lemma lines_fetch (g : globals) (w : world) : lines P (fetch g w).
Proof.
  unfold fetch. destruct (jar_exists w); simpl negb; cbv iota; [apply lines_ret|].
  apply lines_bind; [apply lines_emit; reflexivity|]. intros _ _.
  apply lines_bind;
    [destruct (mkdir_error w); [apply lines_throw | apply lines_ret]|].
  intros _ _. apply lines_bind; [apply lines_spawn|]. intros status _.
  destruct (is_error (getErrorFromStatus status)); [|apply lines_ret].
  apply lines_bind; [apply lines_emit; reflexivity|].
  intros _ _. apply lines_exit.
Qed.

Lemma lines_backup (g : globals) (w : world) : lines P (backup g w).
Proof.
  unfold backup. destruct (summary_exists w); [|apply lines_ret].
  apply lines_bind; [apply lines_emit; reflexivity|]. intros _ _.
  destruct (rename_error w); [apply lines_throw | apply lines_ret].
Qed.

Lemma lines_scan (g : globals) (w : world) : lines P (scan g w).
Proof.
  unfold scan. apply lines_bind; [apply lines_emit; reflexivity|]. intros _ _.
  apply lines_bind; [apply lines_spawn|]. intros status _.
  destruct (is_error (getErrorFromStatus status)); [|apply lines_ret].
  apply lines_emit. reflexivity.
Qed.

Lemma lines_findings (g : globals) (entries : list DashSummaryEntry) :
  lines P (logRestrictedDashSummaryEntries g entries).
Proof.
  unfold lines. rewrite logRestricted_lines. unfold printed. cbn [fst].
  apply Forall_forall. intros o Ho. apply in_map_iff in Ho.
  destruct Ho as [e [<- _]]. apply plain_lines. reflexivity.
Qed.

Lemma lines_settle (m : M unit) : lines P m -> Forall P (fst (settle m)).
Proof.
  unfold lines. destruct m as [out [a|code|e]]; cbn [settle printed fst]; auto.
  intros H. apply Forall_app. split; [assumption|].
  constructor; [apply plain_lines; reflexivity | constructor].
Qed.

End Lines.

Lemma classifier_returns {locale : HostLocale} (summary : stream string)
  (restricted : list DashSummaryEntry) :
  outcome (getRestrictedDependenciesFromSummary summary) = Normal restricted ->
  getRestrictedDependenciesFromSummary summary = ret restricted /\
  Permutation restricted
    (filter restricted_row (map parse_line (items summary))).
Proof.
  destruct (classifier_cases summary) as [[e [-> _]] | [_ [_ ->]]].
  - discriminate.
  - intros [= <-]. split; [reflexivity|].
    apply Permutation_sym, sort_by_perm.
Qed.

Lemma classifier_silent {locale : HostLocale} (summary : stream string) :
  printed (getRestrictedDependenciesFromSummary summary) = [].
Proof.
  destruct (classifier_cases summary) as [[e [-> _]] | [_ [_ ->]]]; reflexivity.
Qed.

Lemma readBaseline_returns (g : globals) (file : js_error + baseline_json)
  (baseline : JsMap.t) :
  outcome (readBaseline g file) = Normal baseline ->
  readBaseline g file = ret baseline.
Proof.
  destruct file as [e|[elements|props| |b|n|s]]; simpl; try discriminate;
    intros [= <-]; reflexivity.
Qed.

Lemma lines_check {locale : HostLocale} (g : globals) (w : world) :
  lines (fun o => is_data o = true -> annotation_of g w o) (check g w).
Proof.
  set (P := fun o => is_data o = true -> annotation_of g w o).
  assert (HP : forall o, is_data o = false -> P o).
  { intros o Ho Hyes. congruence. }
  unfold check. apply lines_bind.
  { unfold lines. rewrite classifier_silent. constructor. }
  intros restricted Hcls. apply classifier_returns in Hcls.
  destruct Hcls as [_ Hperm].
  apply lines_bind;
    [|intros _ _; apply lines_bind;
        [apply lines_emit; [exact HP | reflexivity]
        | intros _ _; apply lines_exit]].
  destruct (0 <? List.length restricted)%nat; [|apply lines_ret].
  destruct (baseline_exists w) eqn:Hex.
  - unfold check_baseline.
    apply lines_bind; [apply lines_emit; [exact HP | reflexivity]|]. intros _ _.
    apply lines_bind.
    { destruct (readBaseline_cases g (baseline_file w))
        as [[b ->] | [[e ->] | ->]];
        [constructor | constructor |].
      constructor; [apply HP; reflexivity | constructor]. }
    intros baseline Hread. apply readBaseline_returns in Hread.
    pose proof (readBaseline_ok g _ _ Hread) as Hok.
    rewrite (reconcile_result restricted baseline Hok).
    apply lines_bind.
    + unfold lines. rewrite report_unmatched_result. unfold printed.
      cbn [fst unmatched_set baseline_map].
      set (unmatched := filter (fun k => negb (mentions restricted k))
                          (JsMap.keys baseline)).
      assert (Hstale : forall k, In k unmatched ->
                         forall e, In e (restricted_rows w) -> dependency e <> Some k).
      { intros k Hk e He Hdep. unfold unmatched in Hk. apply filter_In in Hk.
        destruct Hk as [_ Hno]. apply negb_true_iff in Hno.
        assert (Hyes : mentions restricted k = true).
        { unfold mentions. apply existsb_exists. exists e. split.
          - apply (Permutation_in _ (Permutation_sym Hperm)). exact He.
          - rewrite Hdep. apply String.eqb_refl. }
        congruence. }
      assert (Hall : Forall P (flat_map (unmatched_lines g baseline) unmatched)).
      { apply Forall_forall. intros o Ho. apply in_flat_map in Ho.
        destruct Ho as [k [Hk Ho]]. unfold unmatched_lines in Ho.
        destruct Ho as [<-|Ho]; [apply HP; reflexivity|].
        destruct (JsMap.get baseline k) as [d|] eqn:Hget; [|destruct Ho].
        destruct (truthy (Some d)) eqn:Ht; [|destruct Ho].
        destruct Ho as [<-|[]]. intros _.
        exists baseline, k, d. repeat split; auto. }
      destruct unmatched; [constructor|].
      constructor; [apply HP; reflexivity | exact Hall].
    + intros _ _.
      destruct (0 <? List.length _)%nat; [|apply lines_ret].
      apply lines_bind; [apply lines_emit; [exact HP | reflexivity]|].
      intros _ _. apply lines_bind; [apply lines_findings; exact HP|].
      intros _ _. apply lines_exit.
  - apply lines_bind; [apply lines_emit; [exact HP | reflexivity]|].
    intros _ _. apply lines_bind; [apply lines_findings; exact HP|].
    intros _ _. apply lines_exit.
Qed.

(** X10. A run prints a value next to a key only in the report on
    unmatched baseline entries: every such line is [{key}:] with the value
    the loaded baseline stores for that key, the value is truthy, and the
    key is the dependency of no restricted row of the summary.  With a
    baseline in the list format no such line is printed at all. *)
Theorem annotations_are_stale {locale : HostLocale} (g : globals) (w : world)
  (o : output) :
  In o (fst (program g w)) ->
  (is_data o = true -> annotation_of g w o) /\
  (forall elements,
      baseline_file w = inr (RootArray elements) -> is_data o = false).
Proof.
  intros Hin.
  assert (Hann : is_data o = true -> annotation_of g w o).
  { set (P := fun o => is_data o = true -> annotation_of g w o).
    assert (HP : forall o, is_data o = false -> P o).
    { intros o' Ho Hyes. congruence. }
    assert (Hall : Forall P (fst (program g w))).
    { unfold program, main. apply lines_settle; [exact HP|].
      apply lines_bind; [apply lines_fetch; exact HP|]. intros _ _.
      apply lines_bind; [apply lines_backup; exact HP|]. intros _ _.
      apply lines_bind; [apply lines_scan; exact HP|]. intros _ _.
      apply lines_check. }
    exact (proj1 (Forall_forall P (fst (program g w))) Hall o Hin). }
  split; [exact Hann|]. intros elements Hfile.
  destruct (is_data o) eqn:Hdata; [|reflexivity].
  destruct (Hann eq_refl) as [baseline [k [d [_ [_ [Hread [Hget [Ht _]]]]]]]].
  rewrite Hfile in Hread. simpl in Hread. injection Hread as <-.
  destruct (in_dec string_dec k elements) as [Hk|Hk].
  - rewrite (map_new_array_get elements k Hk) in Hget. injection Hget as <-.
    discriminate Ht.
  - rewrite (map_new_array_miss elements k Hk) in Hget. discriminate Hget.
Qed.

Lemma annotations_are_stale_witness :
  In (console_warn_data "Z:" (JStr "note"))
     (fst (program (locale := ascii_locale) sample_globals
             (sample_world child_ok sample_lines true
                (inr (RootObject [("A", JNull); ("Z", JStr "note")]))))) /\
  annotation_of (locale := ascii_locale) sample_globals
    (sample_world child_ok sample_lines true
       (inr (RootObject [("A", JNull); ("Z", JStr "note")])))
    (console_warn_data "Z:" (JStr "note")).
Proof.
  assert (Hin : In (console_warn_data "Z:" (JStr "note"))
     (fst (program (locale := ascii_locale) sample_globals
             (sample_world child_ok sample_lines true
                (inr (RootObject [("A", JNull); ("Z", JStr "note")])))))).
  { vm_compute. tauto. }
  split; [exact Hin|].
  exact (proj1 (annotations_are_stale (locale := ascii_locale) sample_globals _ _ Hin)
           eq_refl).
Defined.

(** ** The order of the findings *)

Lemma filter_strongly_sorted {A : Type} (R : A -> A -> Prop) (f : A -> bool)
  (l : list A) :
  StronglySorted R l -> StronglySorted R (filter f l).
Proof.
  induction 1 as [|x l Hs IH Hx]; simpl.
  - constructor.
  - destruct (f x); [|exact IH]. constructor; [exact IH|].
    rewrite Forall_forall in *. intros y Hy. apply filter_In in Hy.
    apply Hx. tauto.
Qed.

(** X11. The findings are printed in ascending order of dependency: when
    the host compares strings consistently, the list the classifier
    returns, which is printed when there is no baseline, and the unhandled
    entries, which are printed when there is one, are both sorted, and
    there is one finding line per entry. *)
Theorem findings_are_sorted {locale : HostLocale} (g : globals)
  (summary : stream string) (restricted : list DashSummaryEntry)
  (baseline : JsMap.t) :
  consistent_comparator locale ->
  getRestrictedDependenciesFromSummary summary = ret restricted ->
  StronglySorted dependency_le restricted /\
  StronglySorted dependency_le (fst (reconcile restricted baseline)) /\
  printed (logRestrictedDashSummaryEntries g (fst (reconcile restricted baseline)))
  = map (finding_line g) (fst (reconcile restricted baseline)).
Proof.
  intros [Htotal Htrans] Hret.
  assert (Hsorted : StronglySorted dependency_le restricted).
  { destruct (classifier_cases summary) as [[e [Hthrow _]] | [_ [_ Hs]]].
    - rewrite Hthrow in Hret. discriminate Hret.
    - rewrite Hs in Hret. injection Hret as <-.
      apply (sort_by_sorted _ dependency_order).
      + intros a b. apply Htotal.
      + intros a b c. apply Htrans. }
  split; [exact Hsorted|]. split.
  - rewrite reconcile_unhandled. apply filter_strongly_sorted. exact Hsorted.
  - rewrite logRestricted_lines. reflexivity.
Qed.

Lemma findings_are_sorted_witness :
  consistent_comparator ascii_locale /\
  getRestrictedDependenciesFromSummary (locale := ascii_locale)
    {| items := ["C, lic, restricted, src"; "B, lic, Restricted, src";
                 "A, lic, restricted, src"];
       failure := None |}
  = ret [entry_A; entry_B;
         {| dependency := Some "C"; license := Some "lic";
            status := Some "restricted"; source := Some "src" |}] /\
  StronglySorted (dependency_le (locale := ascii_locale))
    (fst (reconcile
            [entry_A; entry_B;
             {| dependency := Some "C"; license := Some "lic";
                status := Some "restricted"; source := Some "src" |}]
            [("B", JNull)])).
Proof.
  split; [exact ascii_locale_consistent|]. split; [reflexivity|].
  exact (proj1 (proj2 (findings_are_sorted (locale := ascii_locale) sample_globals
           {| items := ["C, lic, restricted, src"; "B, lic, Restricted, src";
                        "A, lic, restricted, src"];
              failure := None |} _ [("B", JNull)]
           ascii_locale_consistent eq_refl))).
Defined.
